(** * SHARPpy [sharppy/sharptab/utils.py]: unit conversions and wind-vector math

    The module works on [numpy.float64] numbers and on [numpy.ma] masked
    arrays.  The development has four layers.

    - [Float64]: the arithmetic the module uses, as an interface.
      [IEEE.instance] is binary64 on Rocq's primitive floats: it computes,
      and it is the arithmetic the program runs; the C library's [sin],
      [cos] and [atan2] are a parameter ([IEEE.Libm]), with a reference
      implementation to run the functions on concrete inputs.
      [Exact.instance] is real arithmetic; it serves one statement only, the
      bound on [FT2M(M2FT(x))] of the unit conversions.
    - [result], [marray] and the operations after them: the part of
      [numpy.ma] the module calls, element by element, as numpy 1.x and 2.x
      implement it: data are kept under the mask, a masked 0-d result is the
      constant [ma.masked], operands of dimension 0 and 1 are broadcast, a
      boolean index selects by its data, an item assignment of a number
      through a masked index writes the data and leaves the mask.
    - the functions of [utils.py], statement by statement, generic in the
      arithmetic; [TOL] and [missing] are parameters.
    - the properties: what each array branch computes at one position
      ([vec2comp_fields], [comp2vec_fields], [mag_fields]), then the claims
      C1 to C10, then further properties of the functions: shapes, masks
      and exceptions, the two branches against each other, a calm wind in
      binary64. *)

From Stdlib Require Import Floats ZArith QArith Reals Lra Lia List Bool.
Import ListNotations.

Set Implicit Arguments.
Set Warnings "-inexact-float".

(* ================================================================== *)
(** * The arithmetic interface *)

(** [lit] reads a Python decimal literal; [fmod] is numpy's [%]
    ([np.remainder], Python sign convention); [isfinite] is [np.isfinite];
    [safe_divide_domain a b] is numpy.ma's [_DomainSafeDivide] test
    [|a| * tiny >= |b|], which masks the result of [%]. *)
Class Float64 (F : Type) : Type := {
  lit : Q -> F;
  fadd : F -> F -> F;
  fmul : F -> F -> F;
  fneg : F -> F;
  fabs : F -> F;
  fsqrt : F -> F;
  fmod : F -> F -> F;
  feqb : F -> F -> bool;
  fltb : F -> F -> bool;
  isfinite : F -> bool;
  safe_divide_domain : F -> F -> bool;
  radians : F -> F;
  degrees : F -> F;
  fsin : F -> F;
  fcos : F -> F;
  farctan2 : F -> F -> F
}.

Declare Scope f64_scope.
Delimit Scope f64_scope with f64.
Notation "x + y" := (fadd x y) : f64_scope.
Notation "x * y" := (fmul x y) : f64_scope.
Notation "- x" := (fneg x) : f64_scope.
Notation "x 'mod' y" := (fmod x y) : f64_scope.
Notation "x =? y" := (feqb x y) : f64_scope.
Notation "x <? y" := (fltb x y) : f64_scope.

(* ================================================================== *)
(** * IEEE binary64 *)

Module IEEE.

(** The C library is not part of the repository: its three functions are a
    parameter of the binary64 instance. *)
Record Libm : Type := {
  sin : float -> float;
  cos : float -> float;
  atan2 : float -> float -> float
}.

Definition of_Z (z : Z) : float :=
  SF2Prim (binary_normalize prec emax z 0 false).

(** A decimal literal [n/10^k]: numerator and denominator are exact in
    binary64 for the literals of the module, and the division rounds to
    nearest, as the Python parser does. *)
Definition of_Q (q : Q) : float :=
  PrimFloat.div (of_Z (Qnum q)) (of_Z (Zpos (Qden q))).

(** C [fmod]: the result has the sign of [x] and is exact. *)
Definition c_fmod (x y : float) : float :=
  match Prim2SF x, Prim2SF y with
  | S754_nan, _ | _, S754_nan => nan
  | S754_infinity _, _ => nan
  | _, S754_zero _ => nan
  | S754_zero _, _ => x
  | _, S754_infinity _ => x
  | S754_finite sx mx ex, S754_finite _ my ey =>
      let e := Z.min ex ey in
      let r := Z.modulo (Zpos mx * 2 ^ (ex - e)) (Zpos my * 2 ^ (ey - e)) in
      SF2Prim (binary_normalize prec emax (if sx then Z.opp r else r) e sx)
  end.

Definition copysign (x y : float) : float :=
  if get_sign y then PrimFloat.opp (PrimFloat.abs x) else PrimFloat.abs x.

(** [npy_divmod]: the remainder of numpy's [%]. *)
Definition npy_remainder (a b : float) : float :=
  let m := c_fmod a b in
  if PrimFloat.eqb b 0 then m
  else if negb (PrimFloat.eqb m 0)
  then (if Bool.eqb (PrimFloat.ltb b 0) (PrimFloat.ltb m 0) then m
        else PrimFloat.add m b)
  else copysign 0 b.

(** [np.finfo(float).tiny] *)
Definition tiny : float := 0x1p-1022%float.

Definition npy_pi : float := 0x1.921fb54442d18p+1%float.

Definition instance (L : Libm) : Float64 float := {|
  lit := of_Q;
  fadd := PrimFloat.add;
  fmul := PrimFloat.mul;
  fneg := PrimFloat.opp;
  fabs := PrimFloat.abs;
  fsqrt := PrimFloat.sqrt;
  fmod := npy_remainder;
  feqb := PrimFloat.eqb;
  fltb := PrimFloat.ltb;
  isfinite := PrimFloat.is_finite;
  safe_divide_domain :=
    fun a b => PrimFloat.leb (PrimFloat.abs b)
                             (PrimFloat.mul (PrimFloat.abs a) tiny);
  radians := fun x => PrimFloat.mul x (PrimFloat.div npy_pi 180);
  degrees := fun x => PrimFloat.mul x (PrimFloat.div 180 npy_pi);
  fsin := sin L;
  fcos := cos L;
  farctan2 := atan2 L
|}.

(** ** A reference C library

      A small binary64 implementation of the three functions, with the
      special values of C99 Annex F and argument reduction followed by a
      Taylor kernel elsewhere.  It is not claimed to be correctly rounded; it
      instantiates the parameter [Libm] where a theorem is run on concrete
      inputs. *)
Module Ref.
Local Open Scope float_scope.

Definition floorZ (x : float) : Z :=
  match Prim2SF x with
  | S754_finite s m e =>
      let sm := if s then Zneg m else Zpos m in
      if (0 <=? e)%Z then (sm * 2 ^ e)%Z else (sm / 2 ^ (- e))%Z
  | _ => 0%Z
  end.

Definition pio2_hi : float := npy_pi / 2.
Definition pio2_lo : float := 0x1.1a62633145c07p-54.

(** [x = k * pi/2 + r] with [|r| <= pi/4] *)
Definition reduce (x : float) : Z * float :=
  let k := floorZ (x * (2 / npy_pi) + 0.5) in
  let fk := of_Z k in
  (k, x - fk * pio2_hi - fk * pio2_lo).

(** [1/k! - z/(k+2)! + z^2/(k+4)! - ...], [n + 1] terms, [c = 1/k!] *)
Fixpoint trig_series (n : nat) (k c z : float) : float :=
  match n with
  | O => c
  | S n' => c - z * trig_series n' (k + 2) (c / ((k + 1) * (k + 2))) z
  end.

Definition kernel_sin (r : float) : float := r * trig_series 9 1 1 (r * r).
Definition kernel_cos (r : float) : float := trig_series 9 0 1 (r * r).

Definition quadrant (k : Z) (r : float) : float :=
  match (k mod 4)%Z with
  | 0%Z => kernel_sin r
  | 1%Z => kernel_cos r
  | 2%Z => - kernel_sin r
  | _ => - kernel_cos r
  end.

Definition sin (x : float) : float :=
  if negb (is_finite x) then nan
  else if x =? 0 then x
  else let '(k, r) := reduce x in quadrant k r.

Definition cos (x : float) : float :=
  if negb (is_finite x) then nan
  else let '(k, r) := reduce x in quadrant (k + 1) r.

(** [1/k - z/(k+2) + z^2/(k+4) - ...], [n + 1] terms *)
Fixpoint atan_series (n : nat) (k z : float) : float :=
  match n with
  | O => 1 / k
  | S n' => 1 / k - z * atan_series n' (k + 2) z
  end.

Definition atan_taylor (t : float) : float := t * atan_series 24 1 (t * t).

Definition atan01 (t : float) : float :=
  if 0x1.a827999fcef32p-2 <? t
  then npy_pi / 4 + atan_taylor ((t - 1) / (t + 1))
  else atan_taylor t.

Definition atan_pos (t : float) : float :=
  if 1 <? t then pio2_hi - atan01 (1 / t) else atan01 t.

Definition atan2 (y x : float) : float :=
  if is_nan x || is_nan y then nan
  else
    let ay := abs y in
    let ax := abs x in
    let a := if ay =? 0 then 0
             else if is_infinity ay && is_infinity ax then npy_pi / 4
             else atan_pos (ay / ax) in
    copysign (if get_sign x then npy_pi - a else a) y.

Definition libm : Libm := {| IEEE.sin := sin; IEEE.cos := cos; IEEE.atan2 := atan2 |}.

End Ref.

End IEEE.

(* ================================================================== *)
(** * Exact real arithmetic *)

Module Exact.
Local Open Scope R_scope.

Definition eqb (x y : R) : bool := if Req_dec_T x y then true else false.
Definition ltb (x y : R) : bool := if Rlt_dec x y then true else false.

(** Python's [%]: [a - floor (a / b) * b] *)
Definition py_mod (a b : R) : R := a - IZR (Int_part (a / b)) * b.

(** The two-argument arctangent, with values in [(-PI, PI]]; the real
    numbers have a single zero, for which the value is 0. *)
Definition arctan2 (y x : R) : R :=
  if Rlt_dec 0 x then atan (y / x)
  else if Rlt_dec x 0
       then (if Rle_dec 0 y then atan (y / x) + PI else atan (y / x) - PI)
       else if Rlt_dec 0 y then PI / 2
            else if Rlt_dec y 0 then - (PI / 2) else 0.

(** No rounding, no overflow: every number is finite and inside the domain
    of the division.  The program runs on binary64; this instance states
    what the constants of the unit conversions amount to before rounding. *)
Definition instance : Float64 R := {|
  lit := Q2R;
  fadd := Rplus;
  fmul := Rmult;
  fneg := Ropp;
  fabs := Rabs;
  fsqrt := sqrt;
  fmod := py_mod;
  feqb := eqb;
  fltb := ltb;
  isfinite := fun _ => true;
  safe_divide_domain := fun _ _ => false;
  radians := fun x => x * (PI / 180);
  degrees := fun x => x * (180 / PI);
  fsin := sin;
  fcos := cos;
  farctan2 := arctan2
|}.

End Exact.

(* ================================================================== *)
(** * Exceptions *)

Inductive exn : Type := AssertionError | ValueError | IndexError.

Inductive result (A : Type) : Type :=
| Ok (a : A)
| Raise (e : exn).
Arguments Ok {A} a.
Arguments Raise {A} e.

Definition bind {A B : Type} (c : result A) (k : A -> result B) : result B :=
  match c with
  | Ok a => k a
  | Raise e => Raise e
  end.

Notation "x <- c1 ;; c2" := (bind c1 (fun x => c2))
  (at level 61, c1 at next level, right associativity).
Notation "' pat <- c1 ;; c2" := (bind c1 (fun x => match x with pat => c2 end))
  (at level 61, pat pattern, c1 at next level, right associativity).

Fixpoint map2 {A B C : Type} (f : A -> B -> C) (xs : list A) (ys : list B)
  : list C :=
  match xs, ys with
  | x :: xs', y :: ys' => f x y :: map2 f xs' ys'
  | _, _ => []
  end.

(* ================================================================== *)
(** * The part of numpy.ma the module calls *)

Section MaskedArrays.
Context {F : Type} {N : Float64 F}.
Local Open Scope f64_scope.

(** An element of a masked array: numpy keeps a number under the mask. *)
Record melt : Type := Melt { data : F; mask : bool }.

(** 0-d and 1-d arrays ([ma.asanyarray(x).astype(np.float64)] of a number
    or of a sequence). *)
Inductive marray : Type :=
| Scalar (e : melt)
| Field (es : list melt).

Definition num (x : F) : marray := Scalar (Melt x false).
Definition array (xs : list F) : marray :=
  Field (map (fun x => Melt x false) xs).

(** [ma.masked] *)
Definition masked : marray := Scalar (Melt (lit 0) true).

Definition shape (a : marray) : list nat :=
  match a with
  | Scalar _ => []
  | Field es => [length es]
  end.

Definition shape_eqb (s t : list nat) : bool :=
  if list_eq_dec Nat.eq_dec s t then true else false.

(** Truth value of the shape tuple: [if a.shape:] *)
Definition has_shape (a : marray) : bool :=
  match shape a with
  | [] => false
  | _ => true
  end.

(** A masked 0-d result is the constant [ma.masked]. *)
Definition squeeze (e : melt) : melt :=
  if mask e then Melt (lit 0) true else e.

Definition elementwise (f : melt -> melt) (a : marray) : marray :=
  match a with
  | Scalar e => Scalar (squeeze (f e))
  | Field es => Field (map f es)
  end.

(** numpy broadcasting of two operands of dimension 0 or 1 *)
Definition broadcast (f : melt -> melt -> melt) (a b : marray)
  : result marray :=
  match a, b with
  | Scalar x, Scalar y => Ok (Scalar (squeeze (f x y)))
  | Scalar x, Field ys => Ok (Field (map (f x) ys))
  | Field xs, Scalar y => Ok (Field (map (fun x => f x y) xs))
  | Field xs, Field ys =>
      if Nat.eqb (length xs) (length ys) then Ok (Field (map2 f xs ys))
      else match xs, ys with
           | [x], _ => Ok (Field (map (f x) ys))
           | _, [y] => Ok (Field (map (fun x => f x y) xs))
           | _, _ => Raise ValueError
           end
  end.

(** ** ufuncs applied to a masked array ([MaskedArray.__array_wrap__]):
    computed on the data everywhere, the mask carried over. *)

Definition ufunc1 (g : F -> F) (e : melt) : melt :=
  Melt (g (data e)) (mask e).

Definition ufunc2 (g : F -> F -> F) (x y : melt) : melt :=
  Melt (g (data x) (data y)) (mask x || mask y).

Definition np_radians : marray -> marray := elementwise (ufunc1 radians).
Definition np_degrees : marray -> marray := elementwise (ufunc1 degrees).
Definition np_fabs : marray -> marray := elementwise (ufunc1 fabs).
Definition np_negative : marray -> marray := elementwise (ufunc1 fneg).
Definition np_arctan2 : marray -> marray -> result marray :=
  broadcast (ufunc2 farctan2).

(** [a % c]: [np.remainder] is a domained ufunc; outside the domain the
    result is masked and filled with 1. *)
Definition remainder_elt (c : F) (e : melt) : melt :=
  let d := safe_divide_domain (data e) c in
  Melt (if d then lit 1 else data e mod c) (mask e || d).

Definition np_remainder (a : marray) (c : F) : marray :=
  elementwise (remainder_elt c) a.

(** ** numpy.ma functions *)

(** [_MaskedUnaryOperation] without domain ([ma.sin], [ma.cos],
    [ma.fabs]): a masked element keeps the data of the operand. *)
Definition ma_unary (g : F -> F) (e : melt) : melt :=
  Melt (if mask e then data e else g (data e)) (mask e).

Definition ma_sin : marray -> marray := elementwise (ma_unary fsin).
Definition ma_cos : marray -> marray := elementwise (ma_unary fcos).
Definition ma_fabs : marray -> marray := elementwise (ma_unary fabs).

(** [ma.sqrt], domain [x >= 0]: negative operands and non-finite results
    are masked. *)
Definition sqrt_elt (e : melt) : melt :=
  let r := fsqrt (data e) in
  let m := negb (isfinite r) || (data e <? lit 0) || mask e in
  Melt (if m then data e else r) m.

Definition ma_sqrt : marray -> marray := elementwise sqrt_elt.

(** [_MaskedBinaryOperation] ([*], [+]): a masked element keeps the data
    of the first operand. *)
Definition ma_binary (g : F -> F -> F) (x y : melt) : melt :=
  let m := mask x || mask y in
  Melt (if m then data x else g (data x) (data y)) m.

Definition ma_multiply : marray -> marray -> result marray :=
  broadcast (ma_binary fmul).
Definition ma_add : marray -> marray -> result marray :=
  broadcast (ma_binary fadd).

(** [a ** 2] ([ma.power]): non-finite results are masked and replaced by
    the fill value of [a]. *)
Definition power2_elt (fill_value : F) (e : melt) : melt :=
  let r := if mask e then data e else data e * data e in
  let invalid := negb (isfinite r) in
  Melt (if invalid then fill_value else r) (mask e || invalid).

Definition ma_power2 (fill_value : F) : marray -> marray :=
  elementwise (power2_elt fill_value).

(** ** Comparisons and indices *)

(** What a comparison returns and what [a[...]] takes: a boolean, a
    boolean array (numpy reads the data of a masked index, not its mask),
    or [ma.masked] (comparison of a masked 0-d array). *)
Inductive index : Type :=
| IdxBool (b : bool)
| IdxArray (bs : list bool)
| IdxMasked.

(** [a == c]: under the mask the data of the result is [False]. *)
Definition ma_eq (a : marray) (c : F) : index :=
  match a with
  | Scalar e => if mask e then IdxMasked else IdxBool (data e =? c)
  | Field es => IdxArray (map (fun e => negb (mask e) && (data e =? c)) es)
  end.

(** [a < c]: under the mask the data of the result is the comparison of
    the data. *)
Definition ma_lt (a : marray) (c : F) : index :=
  match a with
  | Scalar e => if mask e then IdxMasked else IdxBool (data e <? c)
  | Field es => IdxArray (map (fun e => data e <? c) es)
  end.

(** [a.mask] *)
Definition getmask (a : marray) : index :=
  match a with
  | Scalar e => IdxBool (mask e)
  | Field es => IdxArray (map mask es)
  end.

(** [bool(x)] of a comparison: [ma.masked] is false, an array of more than
    one element has no truth value. *)
Definition truth (i : index) : result bool :=
  match i with
  | IdxBool b => Ok b
  | IdxMasked => Ok false
  | IdxArray [] => Ok false
  | IdxArray [b] => Ok b
  | IdxArray _ => Raise ValueError
  end.

(** [a[i] = ...] with a boolean index: the elements selected by [i] are
    updated. *)
Definition assign (upd : melt -> melt) (a : marray) (i : index)
  : result marray :=
  match a, i with
  | _, IdxMasked => Raise IndexError
  | Scalar e, IdxBool b => Ok (Scalar (if b then upd e else e))
  | Scalar _, IdxArray _ => Raise IndexError
  | Field es, IdxBool b => Ok (Field (if b then map upd es else es))
  | Field es, IdxArray bs =>
      if Nat.eqb (length es) (length bs)
      then Ok (Field (map2 (fun e (b : bool) => if b then upd e else e) es bs))
      else Raise IndexError
  end.

(** [a[i] = ma.masked]: the mask is set, the data stay. *)
Definition setitem_masked : marray -> index -> result marray :=
  assign (fun e => Melt (data e) true).

(** [a[i] = c] with [i] a masked boolean array and [c] a number (soft
    mask, [MaskedArray.__setitem__]): the data are written where the data
    of the index are true, [_data[indx.data] = dval]; the mask is not
    touched. *)
Definition setitem (a : marray) (i : index) (c : F) : result marray :=
  assign (fun e => Melt c (mask e)) a i.

(** [a += c] ([MaskedArray.__iadd__]): 0 is added under the mask. *)
Definition iadd_elt (c : F) (e : melt) : melt :=
  Melt (data e + (if mask e then lit 0 else c)) (mask e).

Definition iadd (a : marray) (c : F) : marray :=
  match a with
  | Scalar e => Scalar (iadd_elt c e)
  | Field es => Field (map (iadd_elt c) es)
  end.

(** [a[i] += c] *)
Definition iadd_at (a : marray) (i : index) (c : F) : result marray :=
  assign (iadd_elt c) a i.

End MaskedArrays.

Arguments melt F : clear implicits.
Arguments marray F : clear implicits.

(* ================================================================== *)
(** * [sharppy/sharptab/utils.py] *)

Section Utils.
Context {F : Type} {N : Float64 F}.
Local Open Scope f64_scope.

(** [sharppy.sharptab.constants.TOL].  The constants module is not part of
    the sources at hand: [TOL] is a parameter of the functions, and
    [MISSING] is passed as the argument [missing]. *)
Variable TOL : F.

(** ** Unit conversions *)

(** The argument [val] of a conversion: a number or a numpy array. *)
Inductive pyval : Type :=
| Number (x : F)
| NdArray (xs : list F).

(** [val * k] *)
Definition times (val : pyval) (k : F) : pyval :=
  match val with
  | Number x => Number (x * k)
  | NdArray xs => NdArray (map (fun x => x * k) xs)
  end.

Definition MS2KTS (val : pyval) : pyval := times val (lit 1.94384449).
Definition KTS2MS (val : pyval) : pyval := times val (lit 0.514444).
Definition MS2MPH (val : pyval) : pyval := times val (lit 2.23694).
Definition MPH2MS (val : pyval) : pyval := times val (lit 0.44704).
Definition MPH2KTS (val : pyval) : pyval := times val (lit 0.868976).
Definition KTS2MPH (val : pyval) : pyval := times val (lit 1.15078).
Definition M2FT (val : pyval) : pyval := times val (lit 3.2808399).
Definition FT2M (val : pyval) : pyval := times val (lit 0.3048).

(** ** Wind vectors *)

Definition _vec2comp (wdir wspd : marray F)
  : result (marray F * marray F) :=
  let ang := np_radians (np_remainder wdir (lit 360)) in
  t <- ma_multiply wspd (ma_sin ang);;
  u <- ma_multiply t (num (lit (-1)));;
  t <- ma_multiply wspd (ma_cos ang);;
  v <- ma_multiply t (num (lit (-1)));;
  Ok (u, v).

(** [set_fill_value] only changes what [filled()] and [ma.power] write
    under the mask; [astype] copies, so the caller's arrays are not
    touched. *)
Definition vec2comp (wdir wspd : marray F) (missing : F)
  : result (marray F * marray F) :=
  if negb (shape_eqb (shape wdir) (shape wspd)) then Raise AssertionError
  else if has_shape wdir then
    wdir <- setitem_masked wdir (ma_eq wdir missing);;
    wspd <- setitem_masked wspd (ma_eq wspd missing);;
    wdir <- setitem_masked wdir (getmask wspd);;
    wspd <- setitem_masked wspd (getmask wdir);;
    '(u, v) <- _vec2comp wdir wspd;;
    u <- setitem u (ma_lt (np_fabs u) TOL) (lit 0);;
    v <- setitem v (ma_lt (np_fabs v) TOL) (lit 0);;
    Ok (u, v)
  else
    b1 <- truth (ma_eq wdir missing);;
    '(wdir, wspd) <- (if b1 then Ok (masked, masked)
                      else
                        b2 <- truth (ma_eq wspd missing);;
                        if b2 then Ok (masked, masked)
                        else Ok (wdir, wspd));;
    '(u, v) <- _vec2comp wdir wspd;;
    bu <- truth (ma_lt (ma_fabs u) TOL);;
    let u := if bu then num (lit 0) else u in
    bv <- truth (ma_lt (ma_fabs v) TOL);;
    let v := if bv then num (lit 0) else v in
    Ok (u, v).

Definition mag (u v : marray F) (missing : F) : result (marray F) :=
  let norm u v :=
    s <- ma_add (ma_power2 missing u) (ma_power2 missing v);;
    Ok (ma_sqrt s) in
  if has_shape u then
    u <- setitem_masked u (ma_eq u missing);;
    v <- setitem_masked v (ma_eq v missing);;
    norm u v
  else
    b1 <- truth (ma_eq u missing);;
    b <- (if b1 then Ok true else truth (ma_eq v missing));;
    if b then Ok masked else norm u v.

Definition comp2vec (u v : marray F) (missing : F)
  : result (marray F * marray F) :=
  wdir <- np_arctan2 (np_negative u) (np_negative v);;
  let wdir := np_degrees wdir in
  if has_shape wdir then
    u <- setitem_masked u (ma_eq u missing);;
    v <- setitem_masked v (ma_eq v missing);;
    wdir <- setitem_masked wdir (getmask u);;
    wdir <- setitem_masked wdir (getmask v);;
    wdir <- iadd_at wdir (ma_lt wdir (lit 0)) (lit 360);;
    wdir <- setitem wdir (ma_lt (np_fabs wdir) TOL) (lit 0);;
    wspd <- mag u v missing;;
    Ok (wdir, wspd)
  else
    b1 <- truth (ma_eq u missing);;
    b <- (if b1 then Ok true else truth (ma_eq v missing));;
    if b then Ok (masked, masked)
    else
      neg <- truth (ma_lt wdir (lit 0));;
      let wdir := if neg then iadd wdir (lit 360) else wdir in
      small <- truth (ma_lt (np_fabs wdir) TOL);;
      let wdir := if small then num (lit 0) else wdir in
      wspd <- mag u v missing;;
      Ok (wdir, wspd).

End Utils.

Arguments pyval F : clear implicits.

(* ================================================================== *)
(** * Element-wise reading of the functions

    What the array branch of each function computes at one position, as a
    function of the two operands at that position. *)

Section Elementwise.
Context {F : Type} {N : Float64 F}.
Local Open Scope f64_scope.
Variable TOL : F.
Variable missing : F.

(** An element counts as missing when it is masked or equal to the
    sentinel. *)
Definition is_missing (e : melt F) : bool := mask e || (data e =? missing).

(** The tolerance snap of a number. *)
Definition snap (x : F) : F := if fabs x <? TOL then lit 0 else x.

(** An element of [u] (with [trig := fsin]) or [v] ([trig := fcos]) as
    [_vec2comp] leaves it in the array branch: masked where an operand is
    missing or the direction is outside the domain of [%], and then
    carrying the data of the speed. *)
Definition vec2comp_raw (trig : F -> F) (d s : melt F) : melt F :=
  let m := is_missing d || is_missing s
           || safe_divide_domain (data d) (lit 360) in
  Melt (if m then data s
        else data s * trig (radians (data d mod lit 360)) * lit (-1)) m.

(** The assignment [u[np.fabs(u) < TOL] = 0.] reads the data, also under
    the mask, and writes the data only: a masked element stays masked. *)
Definition snap_elt (e : melt F) : melt F :=
  if fabs (data e) <? TOL then Melt (lit 0) (mask e) else e.

(** [mag] sets the mask of the elements equal to the sentinel first. *)
Definition mark (e : melt F) : melt F := Melt (data e) (is_missing e).

Definition mag_elt (u v : melt F) : melt F :=
  sqrt_elt (ma_binary fadd (power2_elt missing (mark u))
                           (power2_elt missing (mark v))).

(** An element of the direction in the array branch of [comp2vec]. *)
Definition comp2vec_dir (u v : melt F) : melt F :=
  let m := is_missing u || is_missing v in
  let w := degrees (farctan2 (- data u) (- data v)) in
  snap_elt
    (Melt (if w <? lit 0 then w + (if m then lit 0 else lit 360) else w) m).

(** [if wdir < 0: wdir += 360] *)
Definition shift360 (w : F) : F := if w <? lit 0 then w + lit 360 else w.

End Elementwise.

(* ================================================================== *)
(** * The statements of the specification *)

Section Statements.
Context {F : Type} {N : Float64 F}.
Local Open Scope f64_scope.
Variable TOL : F.
Variable missing : F.

(** [f] multiplies a number, and every element of an array, by [k]. *)
Definition scales (f : pyval F -> pyval F) (k : F) : Prop :=
  (forall x, f (Number x) = Number (x * k))
  /\ (forall xs, f (NdArray xs) = NdArray (map (fun x => x * k) xs)).

(** C2 as the specification words it, the components compared with [==]. *)
Definition returns_components_unsnapped (d s : F) : Prop :=
  exists u v,
    vec2comp TOL (num d) (num s) missing = Ok (num u, num v)
    /\ (u =? - s * fsin (radians (d mod lit 360))) = true
    /\ (v =? - s * fcos (radians (d mod lit 360))) = true.

(** The squares and their sum stay finite, and the root is taken of a
    number that is not negative. *)
Definition norm_defined (u v : F) : Prop :=
  isfinite (u * u) = true /\ isfinite (v * v) = true
  /\ isfinite (fsqrt (u * u + v * v)) = true
  /\ (u * u + v * v <? lit 0) = false.

(** C4 as the specification words it. *)
Definition mag_returns_root (u v : F) : Prop :=
  mag (num u) (num v) missing
  = Ok (num (fsqrt (fadd (fmul u u) (fmul v v)))).

(** C1 as the specification words it: the direction comes back
    within [eps] of [snap (d mod 360)] and the speed within [eps] of [s]. *)
Definition roundtrip_within (eps d s : F) : Prop :=
  exists u v wdir wspd,
    vec2comp TOL (num d) (num s) missing = Ok (u, v)
    /\ comp2vec TOL u v missing = Ok (num wdir, num wspd)
    /\ (fabs (wdir + - snap TOL (d mod lit 360)) <? eps) = true
    /\ (fabs (wspd + - s) <? eps) = true.

(** The same as a test: the round trip of [d] and [s] returns two numbers,
    the direction within [eps] of [snap (d mod 360)] and the speed within
    [eps] of [s]. *)
Definition roundtrip_close (eps d s : F) : bool :=
  match vec2comp TOL (num d) (num s) missing with
  | Ok (u, v) =>
      match comp2vec TOL u v missing with
      | Ok (Scalar wdir, Scalar wspd) =>
          negb (mask wdir) && negb (mask wspd)
          && (fabs (data wdir + - snap TOL (d mod lit 360)) <? eps)
          && (fabs (data wspd + - s) <? eps)
      | _ => false
      end
  | Raise _ => false
  end.

End Statements.

(* ================================================================== *)
(** * The elements of an array *)

Section Elements.
Context {F : Type}.

(** The elements of a result: the one of a 0-d array, those of a field. *)
Definition elements (a : marray F) : list (melt F) :=
  match a with
  | Scalar e => [e]
  | Field es => es
  end.

End Elements.

(** The directions 0, 1, ..., 359 as binary64 numbers. *)
Definition whole_degrees : list float :=
  map (fun n => IEEE.of_Z (Z.of_nat n)) (seq 0 360).

(* ================================================================== *)
(** * Arrays as maps over one list

    Two arrays of the same length are the two projections of a list of
    pairs; every intermediate array of the functions is then a [map] over
    that list, and each numpy operation rewrites to a new [map]. *)

Lemma bind_Ok {A B : Type} (a : A) (k : A -> result B) : bind (Ok a) k = k a.
Proof. reflexivity. Qed.

Lemma map2_map_map {A B C D : Type} (f : B -> C -> D) (g : A -> B) (h : A -> C)
  (ps : list A) :
  map2 f (map g ps) (map h ps) = map (fun p => f (g p) (h p)) ps.
Proof. induction ps as [|p ps IH]; simpl; [reflexivity | now rewrite IH]. Qed.

Lemma map2_combine {A B C : Type} (f : A -> B -> C) (xs : list A) (ys : list B) :
  map2 f xs ys = map (fun p => f (fst p) (snd p)) (combine xs ys).
Proof.
  revert ys; induction xs as [|x xs IH]; intros [|y ys]; simpl; try reflexivity.
  now rewrite IH.
Qed.

Lemma split_combine_eq {A B : Type} (xs : list A) (ys : list B) :
  length xs = length ys ->
  map fst (combine xs ys) = xs /\ map snd (combine xs ys) = ys.
Proof.
  revert ys; induction xs as [|x xs IH]; intros [|y ys] Hlen; simpl in *;
    try discriminate; [split; reflexivity|].
  destruct (IH ys) as [H1 H2]; [congruence|]. now rewrite H1, H2.
Qed.

Section ArrayLemmas.
Context {F : Type} {N : Float64 F} {A : Type}.
Implicit Types (ps : list A) (g h : A -> melt F).

Lemma shapes_agree g h ps :
  shape_eqb (shape (Field (map g ps))) (shape (Field (map h ps))) = true.
Proof.
  unfold shape_eqb, shape. rewrite !length_map.
  destruct (list_eq_dec _ _ _) as [_|n]; [reflexivity | now destruct n].
Qed.

Lemma elementwise_map (f : melt F -> melt F) g ps :
  elementwise f (Field (map g ps)) = Field (map (fun p => f (g p)) ps).
Proof. simpl. now rewrite map_map. Qed.

Lemma broadcast_map_map (f : melt F -> melt F -> melt F) g h ps :
  broadcast f (Field (map g ps)) (Field (map h ps))
  = Ok (Field (map (fun p => f (g p) (h p)) ps)).
Proof.
  unfold broadcast. rewrite !length_map, Nat.eqb_refl.
  now rewrite map2_map_map.
Qed.

Lemma broadcast_map_scalar (f : melt F -> melt F -> melt F) g ps y :
  broadcast f (Field (map g ps)) (Scalar y)
  = Ok (Field (map (fun p => f (g p) y) ps)).
Proof. simpl. now rewrite map_map. Qed.

Lemma assign_map (upd : melt F -> melt F) g (b : A -> bool) ps :
  assign upd (Field (map g ps)) (IdxArray (map b ps))
  = Ok (Field (map (fun p => if b p then upd (g p) else g p) ps)).
Proof.
  unfold assign. rewrite !length_map, Nat.eqb_refl.
  now rewrite map2_map_map.
Qed.

Lemma assign_map_bool (upd : melt F -> melt F) g (b : bool) ps :
  assign upd (Field (map g ps)) (IdxBool b)
  = Ok (Field (map (fun p => if b then upd (g p) else g p) ps)).
Proof.
  unfold assign. destruct b; [now rewrite map_map | reflexivity].
Qed.

Lemma ma_eq_map g ps c :
  ma_eq (Field (map g ps)) c
  = IdxArray (map (fun p => negb (mask (g p)) && feqb (data (g p)) c) ps).
Proof. simpl. now rewrite map_map. Qed.

Lemma ma_lt_map g ps c :
  ma_lt (Field (map g ps)) c
  = IdxArray (map (fun p => fltb (data (g p)) c) ps).
Proof. simpl. now rewrite map_map. Qed.

Lemma getmask_map g ps :
  getmask (Field (map g ps)) = IdxArray (map (fun p => mask (g p)) ps).
Proof. simpl. now rewrite map_map. Qed.

Lemma has_shape_field (es : list (melt F)) : has_shape (Field es) = true.
Proof. reflexivity. Qed.

Lemma elementwise_scalar (f : melt F -> melt F) (e : melt F) :
  elementwise f (Scalar e) = Scalar (squeeze (f e)).
Proof. reflexivity. Qed.

Lemma assign_scalar_bool (upd : melt F -> melt F) (e : melt F) (b : bool) :
  assign upd (Scalar e) (IdxBool b) = Ok (Scalar (if b then upd e else e)).
Proof. reflexivity. Qed.

Lemma ma_eq_number (x c : F) :
  ma_eq (Scalar (Melt x false)) c = IdxBool (feqb x c).
Proof. reflexivity. Qed.

Lemma getmask_scalar (e : melt F) : getmask (Scalar e) = IdxBool (mask e).
Proof. reflexivity. Qed.

End ArrayLemmas.

Create Rewrite HintDb numpy.
#[global] Hint Rewrite @bind_Ok @shapes_agree @elementwise_map
  @broadcast_map_map @broadcast_map_scalar @assign_map @assign_map_bool
  @ma_eq_map @ma_lt_map @getmask_map @has_shape_field @elementwise_scalar
  @assign_scalar_bool @ma_eq_number @getmask_scalar : numpy.

(** Unfold the operations of numpy down to [elementwise], [broadcast] and
    [assign], then rewrite them to maps. *)
Ltac numpy_unfold :=
  unfold np_radians, np_degrees, np_fabs, np_negative, np_arctan2,
    np_remainder, ma_sin, ma_cos, ma_fabs, ma_sqrt, ma_multiply, ma_add,
    ma_power2, setitem_masked, setitem, iadd_at, num.

Ltac numpy_maps := numpy_unfold; repeat (autorewrite with numpy; cbv beta).

(* ================================================================== *)
(** * The array branches, element by element *)

Section FieldLemmas.
Context {F : Type} {N : Float64 F}.
Local Open Scope f64_scope.
Variable TOL : F.
Variable missing : F.

Lemma mark_mark (e : melt F) : mark missing (mark missing e) = mark missing e.
Proof.
  destruct e as [x m]; unfold mark, is_missing; cbn.
  now destruct m, (x =? missing).
Qed.

Lemma setitem_masked_elt (e : melt F) :
  (if negb (mask e) && (data e =? missing)
   then Melt (data e) true else e) = mark missing e.
Proof.
  destruct e as [x m]; unfold mark, is_missing; cbn.
  now destruct m, (x =? missing).
Qed.

Lemma vec2comp_maps (ps : list (melt F * melt F)) :
  vec2comp TOL (Field (map fst ps)) (Field (map snd ps)) missing
  = Ok (Field (map (fun p => snap_elt TOL
                               (vec2comp_raw missing fsin (fst p) (snd p))) ps),
        Field (map (fun p => snap_elt TOL
                               (vec2comp_raw missing fcos (fst p) (snd p))) ps)).
Proof.
  unfold vec2comp, _vec2comp. numpy_maps. cbn [negb].
  f_equal. f_equal; f_equal; apply map_ext; intros [[d md] [s ms]];
    unfold snap_elt, vec2comp_raw, is_missing, ufunc1, ma_unary, ma_binary,
      remainder_elt;
    cbn [fst snd data mask];
    destruct md, ms; cbn;
    destruct (d =? missing); cbn;
    destruct (s =? missing); cbn;
    destruct (safe_divide_domain d (lit 360)); cbn; reflexivity.
Qed.

Lemma mag_maps {A : Type} (g h : A -> melt F) (ps : list A) :
  mag (Field (map g ps)) (Field (map h ps)) missing
  = Ok (Field (map (fun p => mag_elt missing (g p) (h p)) ps)).
Proof.
  unfold mag. numpy_maps.
  f_equal. f_equal. apply map_ext; intros p.
  now rewrite !setitem_masked_elt.
Qed.

Lemma comp2vec_maps (ps : list (melt F * melt F)) :
  comp2vec TOL (Field (map fst ps)) (Field (map snd ps)) missing
  = Ok (Field (map (fun p => comp2vec_dir TOL missing (fst p) (snd p)) ps),
        Field (map (fun p => mag_elt missing (fst p) (snd p)) ps)).
Proof.
  unfold comp2vec. numpy_maps. rewrite mag_maps. cbn [bind].
  f_equal. f_equal; f_equal; apply map_ext; intros [[u mu] [v mv]].
  - unfold comp2vec_dir, snap_elt, is_missing, ufunc1, ufunc2, iadd_elt;
      cbn [fst snd data mask].
    destruct mu, mv; cbn;
      destruct (u =? missing); cbn;
      destruct (v =? missing); cbn;
      destruct (degrees (farctan2 (- u) (- v)) <? lit 0); cbn; reflexivity.
  - cbn [fst snd]. rewrite !setitem_masked_elt.
    unfold mag_elt. now rewrite !mark_mark.
Qed.

(** The same for two arrays of one length. *)
Lemma vec2comp_fields (ds ss : list (melt F)) :
  length ds = length ss ->
  vec2comp TOL (Field ds) (Field ss) missing
  = Ok (Field (map2 (fun d s => snap_elt TOL (vec2comp_raw missing fsin d s)) ds ss),
        Field (map2 (fun d s => snap_elt TOL (vec2comp_raw missing fcos d s)) ds ss)).
Proof.
  intros Hlen. destruct (split_combine_eq ds ss Hlen) as [Hd Hs].
  rewrite !map2_combine. remember (combine ds ss) as ps eqn:Eps. clear Eps.
  subst ds ss. apply vec2comp_maps.
Qed.

Lemma comp2vec_fields (us vs : list (melt F)) :
  length us = length vs ->
  comp2vec TOL (Field us) (Field vs) missing
  = Ok (Field (map2 (comp2vec_dir TOL missing) us vs),
        Field (map2 (mag_elt missing) us vs)).
Proof.
  intros Hlen. destruct (split_combine_eq us vs Hlen) as [Hu Hv].
  rewrite !map2_combine. remember (combine us vs) as ps eqn:Eps. clear Eps.
  subst us vs. apply comp2vec_maps.
Qed.

Lemma mag_fields (us vs : list (melt F)) :
  length us = length vs ->
  mag (Field us) (Field vs) missing = Ok (Field (map2 (mag_elt missing) us vs)).
Proof.
  intros Hlen. destruct (split_combine_eq us vs Hlen) as [Hu Hv].
  rewrite !map2_combine. remember (combine us vs) as ps eqn:Eps. clear Eps.
  subst us vs. apply mag_maps.
Qed.

End FieldLemmas.


(* ================================================================== *)
(** * Unit conversions *)

Section Scaling.
Context {F : Type} {N : Float64 F}.
Local Open Scope f64_scope.

Lemma times_scales (k k' : F) : k = k' -> scales (fun val => times val k) k'.
Proof. intros ->. split; reflexivity. Qed.

End Scaling.

(** The literals of the module in the two arithmetics. *)
Lemma Q2R_decimal (n : Z) (d : positive) (r : R) :
  (r * IZR (Zpos d) = IZR n)%R -> Q2R (n # d) = r.
Proof.
  intros H. unfold Q2R; cbn [Qnum Qden]. rewrite <- H. field.
  now apply not_0_IZR.
Qed.

Ltac real_literal := apply Q2R_decimal; lra.
Ltac float_literal := vm_compute; reflexivity.


(* ================================================================== *)
(** * Scalars in [comp2vec] *)

(** C6.  Scalar short-circuit: when [u] or [v] is a number equal to the
    sentinel, [comp2vec] returns [(ma.masked, ma.masked)], whatever the other
    operand and whatever the arithmetic (the arctangent computed on entry is
    not part of the result). *)
Theorem comp2vec_scalar_missing :
  forall (F : Type) (N : Float64 F) (TOL missing : F) (u v : melt F),
    (mask u = false /\ feqb (data u) missing = true)
    \/ (mask v = false /\ feqb (data v) missing = true) ->
    comp2vec TOL (Scalar u) (Scalar v) missing = Ok (masked, masked).
Proof.
  intros F N TOL missing [u mu] [v mv] H; cbn [data mask] in H.
  unfold comp2vec, np_arctan2, np_negative, np_degrees, broadcast, elementwise,
    has_shape, shape, ma_eq, truth.
  cbn [bind data mask].
  destruct H as [[-> Hu] | [-> Hv]].
  - now rewrite Hu.
  - destruct mu; [|destruct (feqb u missing)]; cbn [bind];
      rewrite ?Hv; reflexivity.
Qed.

Lemma comp2vec_scalar_missing_witness :
  let N := IEEE.instance IEEE.Ref.libm in
  comp2vec 1e-10%float (num (-9999)%float) (num 5%float) (-9999)%float
  = Ok (masked, masked).
Proof.
  apply comp2vec_scalar_missing. left. split; [reflexivity | vm_compute; reflexivity].
Defined.

(** C9.  The zero vector: for [u = 0.0] and [v = 0.0], not the sentinel,
    [comp2vec] returns direction 180 and speed 0, because the arctangent is
    taken of the negated components, [atan2(-0.0, -0.0) = -pi] (C99 Annex F),
    and 360 is added to the negative angle. *)
Theorem comp2vec_zero_vector :
  forall (L : IEEE.Libm) (TOL missing : float),
    IEEE.atan2 L (-0)%float (-0)%float = (- IEEE.npy_pi)%float ->
    PrimFloat.eqb 0 missing = false ->
    PrimFloat.ltb 180 TOL = false ->
    let N := IEEE.instance L in
    comp2vec TOL (num 0%float) (num 0%float) missing
    = Ok (num 180%float, num 0%float).
Proof.
  intros L TOL missing Hatan Hmiss Htol N.
  unfold comp2vec, mag, np_arctan2, np_negative, np_degrees, np_fabs,
    ma_add, ma_power2, ma_sqrt, broadcast, elementwise, has_shape, shape,
    ma_eq, ma_lt, truth, num, iadd, iadd_elt, ufunc1, ufunc2, ma_binary,
    power2_elt, sqrt_elt, squeeze.
  cbn -[PrimFloat.ltb PrimFloat.eqb IEEE.npy_pi].
  cbn in Hatan. rewrite Hatan, !Hmiss.
  vm_compute. rewrite Htol. reflexivity.
Qed.

Lemma comp2vec_zero_vector_witness :
  let N := IEEE.instance IEEE.Ref.libm in
  comp2vec 1e-10%float (num 0%float) (num 0%float) (-9999)%float
  = Ok (num 180%float, num 0%float).
Proof.
  apply comp2vec_zero_vector; vm_compute; reflexivity.
Defined.

(* ================================================================== *)
(** * Missing values and the tolerance snap in [vec2comp] *)

Lemma nth_error_map2 {A B C : Type} (f : A -> B -> C) (xs : list A)
  (ys : list B) (i : nat) (x : A) (y : B) :
  nth_error xs i = Some x -> nth_error ys i = Some y ->
  nth_error (map2 f xs ys) i = Some (f x y).
Proof.
  revert ys i; induction xs as [|x' xs IH]; intros [|y' ys] [|i] Hx Hy;
    simpl in *; try discriminate.
  - congruence.
  - now apply IH.
Qed.

Section MissingValues.
Context {F : Type} {N : Float64 F}.
Local Open Scope f64_scope.
Variable TOL : F.
Variable missing : F.

(** The snap leaves the mask of an element as it is. *)
Lemma snap_elt_mask (e : melt F) : mask (snap_elt TOL e) = mask e.
Proof. unfold snap_elt. now destruct (fabs (data e) <? TOL). Qed.

(** The scalar branch with a missing operand: a sentinel, or a 0-d array
    that is masked already. *)
Lemma vec2comp_scalar_masked (d s : melt F) :
  is_missing missing d || is_missing missing s = true ->
  vec2comp TOL (Scalar d) (Scalar s) missing = Ok (masked, masked).
Proof.
  destruct d as [d md], s as [s ms]. unfold is_missing. cbn [data mask].
  intros H.
  unfold vec2comp, _vec2comp, ma_multiply, ma_sin, ma_cos, ma_fabs, np_radians,
    np_remainder, broadcast, elementwise, remainder_elt, ma_unary, ma_binary,
    ufunc1, ma_eq, ma_lt, truth, num, masked, squeeze.
  cbn [shape has_shape bind data mask orb].
  replace (shape_eqb [] []) with true by reflexivity. cbn [negb].
  destruct md, ms; cbn [orb] in H; cbn [bind data mask orb];
    try destruct (d =? missing); cbn [bind data mask orb];
    try destruct (s =? missing); cbn [bind data mask orb];
    try discriminate;
    repeat match goal with
      | |- context [safe_divide_domain ?a ?b] =>
          destruct (safe_divide_domain a b); cbn [bind data mask orb]
      end;
    rewrite ?orb_true_r; cbn [bind data mask orb]; reflexivity.
Qed.

End MissingValues.

(** C5.  Masking in [vec2comp].  On two fields of one length the call
    raises nothing, and at every position whose direction or speed is the
    sentinel or is masked already, the returned [u] and [v] are both masked.
    On two 0-d operands of which one is the sentinel or masked the result is
    [(ma.masked, ma.masked)]; so for [vec2comp(MISSING, 5)] and
    [vec2comp(10, MISSING)], the sentinel being a number equal to itself. *)
Theorem vec2comp_masks_missing :
  forall (F : Type) (N : Float64 F) (TOL missing : F),
    (forall ds ss : list (melt F),
        length ds = length ss ->
        exists us vs,
          vec2comp TOL (Field ds) (Field ss) missing = Ok (Field us, Field vs)
          /\ forall (i : nat) (d s : melt F),
              nth_error ds i = Some d ->
              nth_error ss i = Some s ->
              is_missing missing d || is_missing missing s = true ->
              exists eu ev,
                nth_error us i = Some eu /\ nth_error vs i = Some ev
                /\ mask eu = true /\ mask ev = true)
    /\ (forall d s : melt F,
           is_missing missing d || is_missing missing s = true ->
           vec2comp TOL (Scalar d) (Scalar s) missing = Ok (masked, masked))
    /\ (feqb missing missing = true ->
        vec2comp TOL (num missing) (num (lit 5)) missing = Ok (masked, masked)
        /\ vec2comp TOL (num (lit 10)) (num missing) missing
           = Ok (masked, masked)).
Proof.
  intros F N TOL missing. split; [|split].
  - intros ds ss Hlen. rewrite (vec2comp_fields TOL missing ds ss Hlen).
    eexists; eexists; split; [reflexivity|].
    intros i d s Hd Hs Hm.
    rewrite !(nth_error_map2 _ ds ss i Hd Hs).
    eexists; eexists; split; [reflexivity|]. split; [reflexivity|].
    rewrite !snap_elt_mask. unfold vec2comp_raw. cbn [mask].
    now rewrite Hm.
  - intros d s. apply vec2comp_scalar_masked.
  - intros Hmiss. split; apply vec2comp_scalar_masked; unfold is_missing;
      cbn [data mask orb]; rewrite Hmiss; [reflexivity | apply orb_true_r].
Qed.

Lemma vec2comp_masks_missing_witness :
  let N := IEEE.instance IEEE.Ref.libm in
  vec2comp 1e-10%float (num (-9999)%float) (num (lit 5)) (-9999)%float
  = Ok (masked, masked)
  /\ vec2comp 1e-10%float (num (lit 10)) (num (-9999)%float) (-9999)%float
     = Ok (masked, masked).
Proof.
  intros N.
  apply (proj2 (proj2 (@vec2comp_masks_missing float N 1e-10%float
                         (-9999)%float))).
  vm_compute. reflexivity.
Defined.

(** C10.  The snap never turns a masked result into the number 0.  On two
    fields of one length, the mask of [u] and of [v] at a position is the
    mask the transform leaves there: set exactly when the direction or the
    speed is missing (sentinel or masked) or the direction is outside the
    domain of [%].  Where a missing position carries data below [TOL] (the
    speed, kept under the mask), the snap writes 0 under the mask and the
    element stays masked.  In the scalar branch the result for a missing
    operand is [ma.masked], which is not the number 0. *)
Theorem vec2comp_snap_keeps_masks :
  forall (F : Type) (N : Float64 F) (TOL missing : F),
    (forall ds ss : list (melt F),
        length ds = length ss ->
        exists us vs,
          vec2comp TOL (Field ds) (Field ss) missing = Ok (Field us, Field vs)
          /\ forall (i : nat) (d s : melt F),
              nth_error ds i = Some d ->
              nth_error ss i = Some s ->
              let m := is_missing missing d || is_missing missing s
                       || safe_divide_domain (data d) (lit 360) in
              exists eu ev,
                nth_error us i = Some eu /\ nth_error vs i = Some ev
                /\ mask eu = m /\ mask ev = m
                /\ (m = true -> fltb (fabs (data s)) TOL = true ->
                    eu = Melt (lit 0) true /\ ev = Melt (lit 0) true))
    /\ (forall d s : melt F,
           is_missing missing d || is_missing missing s = true ->
           vec2comp TOL (Scalar d) (Scalar s) missing = Ok (masked, masked)
           /\ masked <> num (lit 0)).
Proof.
  intros F N TOL missing. split.
  - intros ds ss Hlen. rewrite (vec2comp_fields TOL missing ds ss Hlen).
    eexists; eexists; split; [reflexivity|].
    intros i d s Hd Hs m.
    rewrite !(nth_error_map2 _ ds ss i Hd Hs).
    eexists; eexists; split; [reflexivity|]. split; [reflexivity|].
    rewrite !snap_elt_mask. unfold vec2comp_raw. cbn [mask]. fold m.
    split; [reflexivity|]. split; [reflexivity|].
    intros Hm Hsmall. unfold snap_elt. cbn [data mask]. fold m.
    rewrite Hm. cbn [data mask]. now rewrite Hsmall.
  - intros d s Hm. split; [now apply vec2comp_scalar_masked | discriminate].
Qed.

Lemma vec2comp_snap_keeps_masks_witness :
  let N := IEEE.instance IEEE.Ref.libm in
  exists us vs,
    vec2comp 1e-10%float (Field [Melt (-9999)%float false; Melt 90%float false])
      (Field [Melt 0%float false; Melt 5%float false]) (-9999)%float
    = Ok (Field us, Field vs)
    /\ forall (i : nat) (d s : melt float),
        nth_error [Melt (-9999)%float false; Melt 90%float false] i = Some d ->
        nth_error [Melt 0%float false; Melt 5%float false] i = Some s ->
        let m := is_missing (-9999)%float d || is_missing (-9999)%float s
                 || safe_divide_domain (data d) (lit 360) in
        exists eu ev,
          nth_error us i = Some eu /\ nth_error vs i = Some ev
          /\ mask eu = m /\ mask ev = m
          /\ (m = true -> fltb (fabs (data s)) 1e-10%float = true ->
              eu = Melt (lit 0) true /\ ev = Melt (lit 0) true).
Proof.
  intros N.
  apply (proj1 (@vec2comp_snap_keeps_masks float N 1e-10%float (-9999)%float)
           [Melt (-9999)%float false; Melt 90%float false]
           [Melt 0%float false; Melt 5%float false]).
  reflexivity.
Defined.

(** The value at that input: position 0 is masked, with 0 under the
    mask. *)
Example vec2comp_masked_calm :
  let N := IEEE.instance IEEE.Ref.libm in
  vec2comp 1e-10%float (Field [Melt (-9999)%float false; Melt 90%float false])
    (Field [Melt 0%float false; Melt 5%float false]) (-9999)%float
  = Ok (Field [Melt 0%float true; Melt (-5)%float false],
        Field [Melt 0%float true; Melt 0%float false]).
Proof. vm_compute. reflexivity. Qed.

(* ================================================================== *)
(** * Shapes *)

Section Shapes.
Context {F : Type} {N : Float64 F}.
Variable TOL : F.

(** [vec2comp] asserts that the shapes agree. *)
Lemma vec2comp_shape_mismatch (wdir wspd : marray F) (missing : F) :
  shape wdir <> shape wspd ->
  vec2comp TOL wdir wspd missing = Raise AssertionError.
Proof.
  intros Hne. unfold vec2comp, shape_eqb.
  destruct (list_eq_dec _ _ _) as [e|_]; [contradiction | reflexivity].
Qed.

(** [comp2vec] has no such assertion: a field and a number are broadcast. *)
Lemma comp2vec_map_number {A : Type} (g : A -> melt F) (ps : list A)
  (v missing : F) :
  feqb v missing = false ->
  comp2vec TOL (Field (map g ps)) (num v) missing
  = Ok (Field (map (fun p => comp2vec_dir TOL missing (g p) (Melt v false)) ps),
        Field (map (fun p => mag_elt missing (g p) (Melt v false)) ps)).
Proof.
  intros Hv.
  unfold comp2vec, mag. numpy_unfold.
  repeat (autorewrite with numpy; cbv beta;
          cbn [squeeze ufunc1 power2_elt mask data bind negb andb];
          rewrite ?Hv).
  f_equal. f_equal; f_equal; apply map_ext; intros p;
    destruct (g p) as [u mu].
  - unfold comp2vec_dir, snap_elt, is_missing, ufunc1, ufunc2, iadd_elt;
      cbn [fst snd data mask]. rewrite Hv.
    destruct mu; cbn;
      destruct (feqb u missing); cbn;
      destruct (fltb (degrees (farctan2 (fneg u) (fneg v))) (lit 0)); cbn;
      reflexivity.
  - unfold mag_elt, mark, is_missing, power2_elt; cbn [data mask]. rewrite Hv.
    destruct mu; cbn; destruct (feqb u missing) eqn:Eu; cbn; rewrite ?Eu;
      unfold squeeze, ma_binary; cbn; rewrite ?Eu; cbn;
      destruct (isfinite (fmul v v)); cbn;
      destruct (isfinite (fmul u u)); cbn; reflexivity.
Qed.

Lemma comp2vec_field_number (us : list (melt F)) (v missing : F) :
  feqb v missing = false ->
  comp2vec TOL (Field us) (num v) missing
  = Ok (Field (map (fun u => comp2vec_dir TOL missing u (Melt v false)) us),
        Field (map (fun u => mag_elt missing u (Melt v false)) us)).
Proof.
  intros Hv.
  pose proof (comp2vec_map_number (fun u => u) us v missing Hv) as H.
  now rewrite map_id in H.
Qed.

End Shapes.

(** C7.  [vec2comp] raises [AssertionError] whenever the two shapes differ,
    and so for [vec2comp([0, 90], [5])].  [comp2vec] does not: for a field
    [u] and a number [v] other than the sentinel it returns a direction
    field and a speed field of the length of [u]. *)
Theorem shape_checking :
  forall (F : Type) (N : Float64 F) (TOL missing : F),
    (forall wdir wspd : marray F,
        shape wdir <> shape wspd ->
        vec2comp TOL wdir wspd missing = Raise AssertionError)
    /\ vec2comp TOL (array [lit 0; lit 90]) (array [lit 5]) missing
       = Raise AssertionError
    /\ (forall (us : list (melt F)) (v : F),
           feqb v missing = false ->
           exists wdir wspd,
             comp2vec TOL (Field us) (num v) missing
             = Ok (Field wdir, Field wspd)
             /\ length wdir = length us /\ length wspd = length us).
Proof.
  intros F N TOL missing. split; [|split].
  - intros wdir wspd. apply vec2comp_shape_mismatch.
  - apply vec2comp_shape_mismatch. discriminate.
  - intros us v Hv. rewrite (comp2vec_field_number TOL us v missing Hv).
    eexists; eexists; split; [reflexivity|]. now rewrite !length_map.
Qed.

Lemma shape_checking_witness :
  let N := IEEE.instance IEEE.Ref.libm in
  exists wdir wspd,
    comp2vec 1e-10%float (array [3%float; 4%float]) (num 0%float) (-9999)%float
    = Ok (Field wdir, Field wspd)
    /\ length wdir = 2%nat /\ length wspd = 2%nat.
Proof.
  intros N.
  apply (proj2 (proj2 (shape_checking N 1e-10%float (-9999)%float))
           [Melt 3%float false; Melt 4%float false] 0%float).
  vm_compute. reflexivity.
Defined.

(** The value at that input, with the reference C library. *)
Example comp2vec_field_number_value :
  let N := IEEE.instance IEEE.Ref.libm in
  comp2vec 1e-10%float (array [3%float; 4%float]) (num 0%float) (-9999)%float
  = Ok (array [270%float; 270%float], array [3%float; 4%float]).
Proof. vm_compute. reflexivity. Qed.

(* ================================================================== *)
(** * The components returned by [vec2comp] *)

Section Components.
Context {F : Type} {N : Float64 F}.
Local Open Scope f64_scope.
Variable TOL : F.
Variable missing : F.

Lemma vec2comp_numbers (d s : F) :
  (d =? missing) = false ->
  (s =? missing) = false ->
  safe_divide_domain d (lit 360) = false ->
  vec2comp TOL (num d) (num s) missing
  = Ok (num (snap TOL (s * fsin (radians (d mod lit 360)) * lit (-1))),
        num (snap TOL (s * fcos (radians (d mod lit 360)) * lit (-1)))).
Proof.
  intros Hd Hs Hdom.
  unfold vec2comp, _vec2comp, ma_multiply, ma_sin, ma_cos, ma_fabs, np_radians,
    np_remainder, broadcast, elementwise, remainder_elt, ma_unary, ma_binary,
    ufunc1, ma_eq, ma_lt, truth, num, snap.
  cbn [shape shape_eqb has_shape negb bind data mask orb squeeze].
  rewrite Hd. cbn [bind]. rewrite Hs. cbn [bind data mask orb squeeze].
  rewrite Hdom. cbn [bind data mask orb squeeze].
  destruct (fabs (s * fsin (radians (d mod lit 360)) * lit (-1)) <? TOL),
    (fabs (s * fcos (radians (d mod lit 360)) * lit (-1)) <? TOL);
    reflexivity.
Qed.

(** [_vec2comp] itself returns the components without the snap. *)
Lemma vec2comp_transform_numbers (d s : F) :
  safe_divide_domain d (lit 360) = false ->
  _vec2comp (num d) (num s)
  = Ok (num (s * fsin (radians (d mod lit 360)) * lit (-1)),
        num (s * fcos (radians (d mod lit 360)) * lit (-1))).
Proof.
  intros Hdom.
  unfold _vec2comp, ma_multiply, ma_sin, ma_cos, np_radians, np_remainder,
    broadcast, elementwise, remainder_elt, ma_unary, ma_binary, ufunc1, num.
  cbn [bind data mask orb squeeze]. rewrite Hdom. reflexivity.
Qed.

End Components.

(** C2, as stated, fails where a component is snapped: for direction 0 and
    speed 1e-20 the formula gives [v = -1e-20], and [vec2comp] returns 0
    (with [TOL = 1e-10] and [MISSING = -9999.], the constants of SHARPpy). *)
Lemma vec2comp_components_counterexample :
  let N := IEEE.instance IEEE.Ref.libm in
  vec2comp 1e-10%float (num 0%float) (num 1e-20%float) (-9999)%float
  = Ok (num 0%float, num 0%float)
  /\ (- 1e-20%float * fcos (radians (0%float mod lit 360)))%f64 = (-1e-20)%float
  /\ ~ returns_components_unsnapped 1e-10%float (-9999)%float 0%float 1e-20%float.
Proof.
  intros N. split; [|split]; try (vm_compute; reflexivity).
  intros (u & v & H & _ & Hv).
  vm_compute in H. injection H as <- <-.
  vm_compute in Hv. discriminate.
Qed.

(** C2, amended.  For a direction and a speed that are not the sentinel (the
    direction not infinite), [vec2comp] returns
    [u = snap (speed * sin (radians (direction mod 360)) * -1)] and
    [v = snap (speed * cos (radians (direction mod 360)) * -1)], where [snap]
    replaces a number of absolute value below [TOL] by 0; for two numbers, and
    at every position of two fields of one length holding such a pair. *)
Theorem vec2comp_components :
  forall (F : Type) (N : Float64 F) (TOL missing d s : F),
    feqb d missing = false ->
    feqb s missing = false ->
    safe_divide_domain d (lit 360) = false ->
    let u := snap TOL (fmul (fmul s (fsin (radians (fmod d (lit 360))))) (lit (-1))) in
    let v := snap TOL (fmul (fmul s (fcos (radians (fmod d (lit 360))))) (lit (-1))) in
    vec2comp TOL (num d) (num s) missing = Ok (num u, num v)
    /\ forall (ds ss : list (melt F)) (i : nat),
        length ds = length ss ->
        nth_error ds i = Some (Melt d false) ->
        nth_error ss i = Some (Melt s false) ->
        exists us vs,
          vec2comp TOL (Field ds) (Field ss) missing = Ok (Field us, Field vs)
          /\ nth_error us i = Some (Melt u false)
          /\ nth_error vs i = Some (Melt v false).
Proof.
  intros F N TOL missing d s Hd Hs Hdom u v. split.
  - now apply vec2comp_numbers.
  - intros ds ss i Hlen Hdi Hsi.
    rewrite (vec2comp_fields TOL missing ds ss Hlen).
    eexists; eexists; split; [reflexivity|].
    rewrite !(nth_error_map2 _ ds ss i Hdi Hsi).
    unfold snap_elt, vec2comp_raw, is_missing; cbn [data mask orb].
    rewrite Hd, Hs, Hdom; cbn [data mask orb].
    subst u v; unfold snap. split.
    + now destruct (fltb _ TOL).
    + now destruct (fltb _ TOL).
Qed.

Lemma vec2comp_components_witness :
  let N := IEEE.instance IEEE.Ref.libm in
  vec2comp 1e-10%float (num 270%float) (num 10%float) (-9999)%float
  = Ok (num 10%float, num 0%float).
Proof.
  intros N.
  refine (proj1 (@vec2comp_components float N 1e-10%float (-9999)%float
                   270%float 10%float _ _ _));
    vm_compute; reflexivity.
Defined.

(* ================================================================== *)
(** * Magnitude *)

Section Magnitude.
Context {F : Type} {N : Float64 F}.
Local Open Scope f64_scope.
Variable missing : F.

Lemma mag_elt_numbers (u v : F) :
  (u =? missing) = false -> (v =? missing) = false -> norm_defined u v ->
  mag_elt missing (Melt u false) (Melt v false)
  = Melt (fsqrt (u * u + v * v)) false.
Proof.
  intros Hu Hv (Fu & Fv & Fs & Hpos).
  unfold mag_elt, mark, is_missing, power2_elt, ma_binary, sqrt_elt.
  cbn [data mask orb]. rewrite Hu, Hv. cbn [data mask orb negb].
  rewrite Fu, Fv. cbn [data mask orb negb].
  rewrite Fs, Hpos. reflexivity.
Qed.

Lemma mag_numbers (u v : F) :
  (u =? missing) = false -> (v =? missing) = false -> norm_defined u v ->
  mag (num u) (num v) missing = Ok (num (fsqrt (u * u + v * v))).
Proof.
  intros Hu Hv (Fu & Fv & Fs & Hpos).
  unfold mag, ma_add, ma_power2, ma_sqrt, broadcast, elementwise, power2_elt,
    ma_binary, sqrt_elt, ma_eq, truth, num.
  cbn [has_shape shape bind data mask orb]. rewrite Hu. cbn [bind].
  rewrite Hv. cbn [bind data mask orb negb squeeze].
  rewrite Fu, Fv. cbn [bind data mask orb negb squeeze].
  rewrite Fs, Hpos. reflexivity.
Qed.

Lemma mag_scalar_missing (u v : melt F) :
  (mask u = false /\ (data u =? missing) = true)
  \/ (mask v = false /\ (data v =? missing) = true) ->
  mag (Scalar u) (Scalar v) missing = Ok masked.
Proof.
  destruct u as [u mu], v as [v mv]; cbn [data mask].
  unfold mag, ma_eq, truth; cbn [has_shape shape bind data mask].
  intros [[-> Hu] | [-> Hv]].
  - now rewrite Hu.
  - destruct mu; [|destruct (u =? missing)]; cbn [bind];
      rewrite ?Hv; reflexivity.
Qed.

Lemma squeeze_unmasked (e : melt F) : mask (squeeze e) = false -> squeeze e = e.
Proof. unfold squeeze. destruct (mask e) eqn:Em; [discriminate | reflexivity]. Qed.

(** A numeric result of [mag] on two scalars is a [sqrt_elt]. *)
Lemma mag_scalar_result (u v : melt F) (e : melt F) :
  mag (Scalar u) (Scalar v) missing = Ok (Scalar e) ->
  mask e = false ->
  exists x, e = sqrt_elt x.
Proof.
  unfold mag, ma_add, ma_power2, ma_sqrt, broadcast, elementwise.
  cbn [has_shape shape bind].
  destruct (truth (ma_eq (Scalar u) missing)) as [b1|]; [|discriminate].
  cbn [bind].
  destruct (if b1 then Ok true else truth (ma_eq (Scalar v) missing))
    as [b|]; [|discriminate].
  cbn [bind]. destruct b.
  - intros [= <-]. discriminate.
  - intros [= <-] Hm. rewrite (squeeze_unmasked _ Hm).
    eexists; reflexivity.
Qed.

(** [mag] on two numbers other than the sentinel is the element of the
    array branch, turned into [ma.masked] when it is masked. *)
Lemma mag_numbers_squeeze (u v : F) :
  (u =? missing) = false -> (v =? missing) = false ->
  mag (num u) (num v) missing
  = Ok (Scalar (squeeze (mag_elt missing (Melt u false) (Melt v false)))).
Proof.
  intros Hu Hv.
  unfold mag, ma_add, ma_power2, ma_sqrt, broadcast, elementwise, ma_eq, truth,
    num, mag_elt, mark, is_missing.
  cbn [has_shape shape bind data mask orb]. rewrite Hu. cbn [bind].
  rewrite Hv. cbn [bind]. do 2 f_equal.
  unfold power2_elt. cbn [data mask orb].
  destruct (isfinite (u * u)), (isfinite (v * v)); cbn [negb];
    unfold squeeze, ma_binary, sqrt_elt; cbn [data mask orb];
    rewrite ?orb_true_r; cbn [data mask orb]; reflexivity.
Qed.

(** Outside [norm_defined] the element is masked. *)
Lemma mag_elt_undefined (u v : F) :
  (u =? missing) = false -> (v =? missing) = false -> ~ norm_defined u v ->
  mask (mag_elt missing (Melt u false) (Melt v false)) = true.
Proof.
  intros Hu Hv Hn.
  unfold mag_elt, mark, is_missing, power2_elt, ma_binary, sqrt_elt.
  cbn [data mask orb]. rewrite Hu, Hv. cbn [data mask orb negb].
  destruct (isfinite (u * u)) eqn:Fu; cbn [data mask orb negb];
    [|now rewrite orb_true_r].
  destruct (isfinite (v * v)) eqn:Fv; cbn [data mask orb negb];
    [|now rewrite orb_true_r].
  destruct (isfinite (fsqrt (u * u + v * v))) eqn:Fs; cbn [negb orb];
    [|reflexivity].
  destruct (u * u + v * v <? lit 0) eqn:Hneg; cbn [orb]; [reflexivity|].
  exfalso. apply Hn. repeat split; assumption.
Qed.

End Magnitude.

(** The square root of binary64 is not negative. *)
Lemma float_sqrt_nonneg (x : float) :
  PrimFloat.is_finite (PrimFloat.sqrt x) = true ->
  PrimFloat.leb 0 (PrimFloat.sqrt x) = true.
Proof.
  unfold PrimFloat.is_finite, PrimFloat.is_nan.
  rewrite FloatAxioms.leb_spec, FloatAxioms.eqb_spec, FloatAxioms.sqrt_spec.
  change (Prim2SF 0) with (S754_zero false).
  unfold SF64sqrt, SFsqrt.
  destruct (Prim2SF x) as [s|[|]| |[|] m e]; cbn; try discriminate;
    try reflexivity.
  destruct (SFsqrt_core_binary prec emax (Zpos m) e) as [[mz ez] lz].
  unfold binary_round_aux.
  destruct (shr_fexp prec emax mz ez lz) as [mrs' e'].
  destruct (shr_fexp prec emax _ e' loc_Exact) as [mrs'' e''].
  destruct (shr_m mrs''); cbn; try discriminate; try reflexivity.
  destruct (Z.leb e'' _); reflexivity.
Qed.

Lemma sqrt_elt_nonneg_float (L : IEEE.Libm) (x : melt float) :
  let N := IEEE.instance L in
  mask (sqrt_elt x) = false -> PrimFloat.leb 0 (data (sqrt_elt x)) = true.
Proof.
  intros N. unfold sqrt_elt. cbn [data mask].
  destruct (isfinite (fsqrt (data x))) eqn:Ef; cbn [negb orb]; [|discriminate].
  destruct (fltb (data x) (lit 0)); cbn [orb]; [discriminate|].
  destruct (mask x); [discriminate|]. intros _.
  now apply float_sqrt_nonneg.
Qed.

(** Binary64: zero times a finite number, negated or not, is a zero. *)
Lemma float_zero_component (x : float) :
  PrimFloat.is_finite x = true ->
  PrimFloat.abs (PrimFloat.mul (PrimFloat.mul 0 x) (-1)) = 0%float.
Proof.
  intros Hfin. apply Prim2SF_inj.
  rewrite abs_spec, !mul_spec.
  revert Hfin. unfold PrimFloat.is_finite, PrimFloat.is_nan, PrimFloat.is_infinity.
  rewrite !FloatAxioms.eqb_spec, abs_spec.
  change (Prim2SF 0) with (S754_zero false).
  change (Prim2SF (-1)) with (S754_finite true 4503599627370496 (-52)).
  change (Prim2SF infinity) with (S754_infinity false).
  destruct (Prim2SF x) as [s|[|]| |s m e]; cbn; try discriminate;
    intros _; reflexivity.
Qed.

Lemma nth_error_map2_inv {A B C : Type} (f : A -> B -> C) (xs : list A)
  (ys : list B) (i : nat) (z : C) :
  nth_error (map2 f xs ys) i = Some z ->
  exists x y, nth_error xs i = Some x /\ nth_error ys i = Some y /\ z = f x y.
Proof.
  revert ys i; induction xs as [|x' xs IH]; intros [|y' ys] [|i] H;
    simpl in *; try discriminate.
  - injection H as <-. now exists x', y'.
  - now apply IH.
Qed.

(** C4, as stated, fails where a square overflows: [1e200] is finite and is
    not the sentinel, and [mag(1e200, 0.)] is [ma.masked], not a number
    ([ma.power] masks a result that is not finite). *)
Lemma mag_overflow_counterexample :
  let N := IEEE.instance IEEE.Ref.libm in
  PrimFloat.is_finite 1e200%float = true
  /\ PrimFloat.eqb 1e200%float (-9999)%float = false
  /\ mag (num 1e200%float) (num 0%float) (-9999)%float = Ok masked
  /\ ~ mag_returns_root (-9999)%float 1e200%float 0%float.
Proof.
  intros N. repeat split; try (vm_compute; reflexivity).
  intros H. vm_compute in H. discriminate.
Qed.

(** C4, amended.  For [u] and [v] that are not the sentinel and whose
    squares, sum of squares and root are finite (the sum not negative),
    [mag] returns [sqrt (u * u + v * v)], for two numbers and at every
    position of two fields of one length holding such a pair; no tolerance
    enters.  Otherwise, for [u] and [v] that are not the sentinel, the result
    is masked: [ma.masked] for two numbers, a masked element at such a
    position of two fields.  When a scalar operand is the sentinel the result
    is [ma.masked].  In binary64 a numeric result is never negative and the
    zero vector gives exactly 0. *)
Theorem mag_properties :
  (forall (F : Type) (N : Float64 F) (missing u v : F),
      feqb u missing = false -> feqb v missing = false -> norm_defined u v ->
      mag (num u) (num v) missing
      = Ok (num (fsqrt (fadd (fmul u u) (fmul v v))))
      /\ forall (us vs : list (melt F)) (i : nat),
          length us = length vs ->
          nth_error us i = Some (Melt u false) ->
          nth_error vs i = Some (Melt v false) ->
          exists ws,
            mag (Field us) (Field vs) missing = Ok (Field ws)
            /\ nth_error ws i
               = Some (Melt (fsqrt (fadd (fmul u u) (fmul v v))) false))
  /\ (forall (F : Type) (N : Float64 F) (missing u v : F),
         feqb u missing = false -> feqb v missing = false ->
         ~ norm_defined u v ->
         mag (num u) (num v) missing = Ok masked
         /\ forall (us vs : list (melt F)) (i : nat),
             length us = length vs ->
             nth_error us i = Some (Melt u false) ->
             nth_error vs i = Some (Melt v false) ->
             exists ws e,
               mag (Field us) (Field vs) missing = Ok (Field ws)
               /\ nth_error ws i = Some e /\ mask e = true)
  /\ (forall (F : Type) (N : Float64 F) (missing : F) (u v : melt F),
         (mask u = false /\ feqb (data u) missing = true)
         \/ (mask v = false /\ feqb (data v) missing = true) ->
         mag (Scalar u) (Scalar v) missing = Ok masked)
  /\ (forall (L : IEEE.Libm) (missing : float),
         let N := IEEE.instance L in
         (forall (u v e : melt float),
             mag (Scalar u) (Scalar v) missing = Ok (Scalar e) ->
             mask e = false -> PrimFloat.leb 0 (data e) = true)
         /\ (forall (us vs ws : list (melt float)) (i : nat) (e : melt float),
                length us = length vs ->
                mag (Field us) (Field vs) missing = Ok (Field ws) ->
                nth_error ws i = Some e ->
                mask e = false -> PrimFloat.leb 0 (data e) = true)
         /\ (PrimFloat.eqb 0 missing = false ->
             mag (num 0%float) (num 0%float) missing = Ok (num 0%float))).
Proof.
  split; [|split; [|split]].
  - intros F N missing u v Hu Hv Hn. split.
    + now apply mag_numbers.
    + intros us vs i Hlen Hui Hvi.
      rewrite (mag_fields missing us vs Hlen).
      eexists; split; [reflexivity|].
      rewrite (nth_error_map2 _ us vs i Hui Hvi).
      now rewrite mag_elt_numbers.
  - intros F N missing u v Hu Hv Hn.
    pose proof (@mag_elt_undefined F N missing u v Hu Hv Hn) as Hm. split.
    + rewrite (@mag_numbers_squeeze F N missing u v Hu Hv).
      unfold squeeze. now rewrite Hm.
    + intros us vs i Hlen Hui Hvi.
      rewrite (mag_fields missing us vs Hlen).
      eexists; eexists; split; [reflexivity|].
      rewrite (nth_error_map2 _ us vs i Hui Hvi). split; [reflexivity|].
      exact Hm.
  - intros F N missing u v. apply mag_scalar_missing.
  - intros L missing N. split; [|split].
    + intros u v e He Hm.
      destruct (mag_scalar_result missing u v He Hm) as [x ->].
      now apply (sqrt_elt_nonneg_float L).
    + intros us vs ws i e Hlen Hws He Hm.
      rewrite (mag_fields missing us vs Hlen) in Hws.
      injection Hws as <-.
      apply nth_error_map2_inv in He. destruct He as (u & v & _ & _ & ->).
      now apply (sqrt_elt_nonneg_float L).
    + intros Hz.
      unfold mag, ma_add, ma_power2, ma_sqrt, broadcast, elementwise,
        power2_elt, ma_binary, sqrt_elt, ma_eq, truth, num.
      cbn [has_shape shape bind data mask feqb N IEEE.instance]. rewrite Hz.
      vm_compute. reflexivity.
Qed.

Lemma mag_properties_witness :
  let N := IEEE.instance IEEE.Ref.libm in
  mag (num 3%float) (num 4%float) (-9999)%float = Ok (num 5%float).
Proof.
  intros N.
  refine (proj1 (proj1 mag_properties float N (-9999)%float 3%float 4%float
                   _ _ _));
    repeat split; vm_compute; reflexivity.
Defined.

(* ================================================================== *)
(** * The round trip *)

Section Direction.
Context {F : Type} {N : Float64 F}.
Local Open Scope f64_scope.
Variable TOL : F.
Variable missing : F.

Lemma comp2vec_numbers (u v : F) :
  (u =? missing) = false -> (v =? missing) = false ->
  comp2vec TOL (num u) (num v) missing
  = (wspd <- mag (num u) (num v) missing;;
     Ok (num (snap TOL (shift360 (degrees (farctan2 (- u) (- v))))), wspd)).
Proof.
  intros Hu Hv.
  unfold comp2vec, np_arctan2, np_negative, np_degrees, np_fabs, broadcast,
    elementwise, ufunc1, ufunc2, ma_eq, ma_lt, truth, iadd, iadd_elt, num,
    snap, shift360.
  cbn [has_shape shape bind data mask orb squeeze].
  rewrite Hu. cbn [bind]. rewrite Hv. cbn [bind].
  destruct (degrees (farctan2 (- u) (- v)) <? lit 0);
    cbn [bind data mask squeeze];
    match goal with |- context [fabs ?w <? TOL] => destruct (fabs w <? TOL) end;
    reflexivity.
Qed.

End Direction.


Section RoundTrip.
Context {F : Type} {N : Float64 F}.
Local Open Scope f64_scope.
Variable TOL : F.
Variable missing : F.

Lemma roundtrip_close_within (eps d s : F) :
  roundtrip_close TOL missing eps d s = true ->
  roundtrip_within TOL missing eps d s.
Proof.
  unfold roundtrip_close, roundtrip_within.
  destruct (vec2comp TOL (num d) (num s) missing) as [[u v]|]; [|discriminate].
  destruct (comp2vec TOL u v missing) as [[[[wd md]|] [[ws ms]|]]|] eqn:E;
    try discriminate.
  cbn [data mask]. intros H.
  apply andb_prop in H. destruct H as [H H4].
  apply andb_prop in H. destruct H as [H H3].
  apply andb_prop in H. destruct H as [H1 H2].
  destruct md, ms; try discriminate.
  exists u, v, wd, ws. repeat split; assumption || reflexivity.
Qed.

(** The two calls one after the other, on numbers. *)
Lemma roundtrip_numbers (d s : F) :
  (d =? missing) = false -> (s =? missing) = false ->
  safe_divide_domain d (lit 360) = false ->
  let u := snap TOL (s * fsin (radians (d mod lit 360)) * lit (-1)) in
  let v := snap TOL (s * fcos (radians (d mod lit 360)) * lit (-1)) in
  (u =? missing) = false -> (v =? missing) = false -> norm_defined u v ->
  vec2comp TOL (num d) (num s) missing = Ok (num u, num v)
  /\ comp2vec TOL (num u) (num v) missing
     = Ok (num (snap TOL (shift360 (degrees (farctan2 (- u) (- v))))),
           num (fsqrt (u * u + v * v))).
Proof.
  intros Hd Hs Hdom u v Hu Hv Hn. split.
  - now apply vec2comp_numbers.
  - rewrite (@comp2vec_numbers F N TOL missing u v Hu Hv).
    now rewrite (@mag_numbers F N missing u v Hu Hv Hn).
Qed.

End RoundTrip.

(** A calm wind in binary64: the components are [(0., 0.)] whatever the
    direction. *)
Lemma calm_components (L : IEEE.Libm) (TOL missing d : float) :
  let N := IEEE.instance L in
  PrimFloat.ltb 0 TOL = true ->
  PrimFloat.eqb d missing = false ->
  PrimFloat.eqb 0 missing = false ->
  safe_divide_domain d 360%float = false ->
  let theta := radians (fmod d 360%float) in
  PrimFloat.is_finite (IEEE.sin L theta) = true ->
  PrimFloat.is_finite (IEEE.cos L theta) = true ->
  vec2comp TOL (num d) (num 0%float) missing = Ok (num 0%float, num 0%float).
Proof.
  intros N Htol Hd H0 Hdom theta Hsin Hcos.
  assert (H360 : lit (F := float) 360 = 360%float) by float_literal.
  rewrite (@vec2comp_numbers float N TOL missing d 0%float Hd H0)
    by (rewrite H360; exact Hdom).
  rewrite H360. fold theta.
  unfold snap. cbn [fabs fmul fltb fsin fcos lit N IEEE.instance].
  change (IEEE.of_Q (-1)) with (-1)%float.
  change (IEEE.of_Q 0) with 0%float.
  rewrite (float_zero_component _ Hsin), (float_zero_component _ Hcos).
  now rewrite Htol.
Qed.

(** The zero vector in binary64 comes back as direction 180. *)
Lemma zero_vector_direction (L : IEEE.Libm) (TOL missing : float) :
  let N := IEEE.instance L in
  IEEE.atan2 L (-0)%float (-0)%float = (- IEEE.npy_pi)%float ->
  PrimFloat.eqb 0 missing = false ->
  PrimFloat.ltb 180 TOL = false ->
  comp2vec TOL (num 0%float) (num 0%float) missing
  = Ok (num 180%float, num 0%float).
Proof.
  intros N Hatan Hmiss Htol.
  unfold comp2vec, mag, np_arctan2, np_negative, np_degrees, np_fabs,
    ma_add, ma_power2, ma_sqrt, broadcast, elementwise, has_shape, shape,
    ma_eq, ma_lt, truth, num, iadd, iadd_elt, ufunc1, ufunc2, ma_binary,
    power2_elt, sqrt_elt, squeeze.
  cbn -[PrimFloat.ltb PrimFloat.eqb IEEE.npy_pi].
  cbn in Hatan. rewrite Hatan, !Hmiss.
  vm_compute. rewrite Htol. reflexivity.
Qed.



(* ================================================================== *)
(** * The range of the direction in binary64 *)

(** C3.  Evaluation at the failing input [u = 1e-20], [v = -1.0] (neither
    the sentinel, the tolerance at most 360): the angle
    [degrees(atan2(-1e-20, 1.0))] is negative and below half an ulp of 360,
    so adding 360 rounds to 360.0, which the snap (it only looks near 0)
    leaves: the direction returned is 360.0, outside [[0, 360)]. *)
Theorem comp2vec_direction_360 :
  forall (L : IEEE.Libm) (TOL missing : float),
    IEEE.atan2 L (-1e-20)%float 1%float = (-1e-20)%float ->
    PrimFloat.eqb 1e-20 missing = false ->
    PrimFloat.eqb (-1) missing = false ->
    PrimFloat.ltb 360 TOL = false ->
    let N := IEEE.instance L in
    comp2vec TOL (num 1e-20%float) (num (-1)%float) missing
    = Ok (num 360%float, num 1%float).
Proof.
  intros L TOL missing Hatan Hu Hv Htol N.
  rewrite (@comp2vec_numbers float N TOL missing 1e-20%float (-1)%float Hu Hv).
  rewrite (@mag_numbers float N missing 1e-20%float (-1)%float Hu Hv)
    by (repeat split; vm_compute; reflexivity).
  cbn [bind fneg farctan2 fmul fadd fsqrt N IEEE.instance].
  cbn in Hatan.
  set (y := PrimFloat.opp 1e-20); vm_compute in y; subst y.
  set (x := PrimFloat.opp (-1)); vm_compute in x; subst x.
  rewrite Hatan.
  replace (shift360 (degrees (-1e-20)%float)) with 360%float
    by (vm_compute; reflexivity).
  unfold snap. cbn [fabs fltb N IEEE.instance].
  replace (PrimFloat.abs 360) with 360%float by reflexivity.
  rewrite Htol. vm_compute. reflexivity.
Qed.

Lemma comp2vec_direction_360_witness :
  let N := IEEE.instance IEEE.Ref.libm in
  comp2vec 1e-10%float (num 1e-20%float) (num (-1)%float) (-9999)%float
  = Ok (num 360%float, num 1%float).
Proof.
  apply comp2vec_direction_360; vm_compute; reflexivity.
Defined.

(* ================================================================== *)
(** * The examples of the specification, with the reference C library *)

(** A field with one missing direction: the position is masked in [u] and
    in [v] (the speed 5 stays under the mask). *)
Example vec2comp_mixed_missing :
  let N := IEEE.instance IEEE.Ref.libm in
  vec2comp 1e-10%float (array [0%float; (-9999)%float])
    (array [5%float; 5%float]) (-9999)%float
  = Ok (Field [Melt 0%float false; Melt 5%float true],
        Field [Melt (-5)%float false; Melt 5%float true]).
Proof. vm_compute. reflexivity. Qed.

(** Wind from the north: [u = 0], [v = -1] is direction 0, speed 1. *)
Example comp2vec_north :
  let N := IEEE.instance IEEE.Ref.libm in
  comp2vec 1e-10%float (num 0%float) (num (-1)%float) (-9999)%float
  = Ok (num 0%float, num 1%float).
Proof. vm_compute. reflexivity. Qed.

(** Tolerance snap: for direction 180 the transform gives
    [u = -1.2246467991473532e-16], reported as 0. *)
Example vec2comp_south :
  let N := IEEE.instance IEEE.Ref.libm in
  _vec2comp (num 180%float) (num 1%float)
  = Ok (num (-1.2246467991473532e-16)%float, num 1%float)
  /\ vec2comp 1e-10%float (num 180%float) (num 1%float) (-9999)%float
     = Ok (num 0%float, num 1%float).
Proof. split; vm_compute; reflexivity. Qed.

(** A round trip in binary64. *)
Example roundtrip_sample :
  let N := IEEE.instance IEEE.Ref.libm in
  vec2comp 1e-10%float (num 45%float) (num 10%float) (-9999)%float
  = Ok (num (-7.0710678118654746)%float, num (-7.0710678118654755)%float)
  /\ comp2vec 1e-10%float (num (-7.0710678118654746)%float)
       (num (-7.0710678118654755)%float) (-9999)%float
     = Ok (num 45%float, num 10%float).
Proof. split; vm_compute; reflexivity. Qed.

(* ================================================================== *)
(** * Further properties: shapes, masks and what is never returned *)

Lemma length_map2 {A B C : Type} (f : A -> B -> C) (xs : list A) (ys : list B) :
  length xs = length ys -> length (map2 f xs ys) = length xs.
Proof.
  revert ys; induction xs as [|x xs IH]; intros [|y ys] H; simpl in *;
    try discriminate; [reflexivity|]. f_equal. apply IH. congruence.
Qed.

Lemma shape_field_length {F : Type} (xs ys : list (melt F)) :
  shape (Field xs) = shape (Field ys) -> length xs = length ys.
Proof. intros H. now injection H. Qed.

Section Outputs.
Context {F : Type} {N : Float64 F}.
Local Open Scope f64_scope.
Variable TOL : F.
Variable missing : F.

Lemma snap_raw_mask (d s : melt F) :
  mask (snap_elt TOL (vec2comp_raw missing fsin d s))
  = mask (snap_elt TOL (vec2comp_raw missing fcos d s)).
Proof.
  unfold snap_elt, vec2comp_raw.
  destruct (is_missing missing d || is_missing missing s
            || safe_divide_domain (data d) (lit 360)); cbn [data mask].
  - reflexivity.
  - repeat match goal with |- context [if ?b then _ else _] => destruct b end;
      reflexivity.
Qed.

Lemma vec2comp_scalars (d s : melt F) :
  exists u v,
    vec2comp TOL (Scalar d) (Scalar s) missing = Ok (Scalar u, Scalar v)
    /\ mask u = mask v
    /\ (mask u = false ->
        (data u = lit 0 \/ (fabs (data u) <? TOL) = false)
        /\ (data v = lit 0 \/ (fabs (data v) <? TOL) = false)).
Proof.
  destruct d as [d md], s as [s ms].
  unfold vec2comp, _vec2comp, ma_multiply, ma_sin, ma_cos, ma_fabs, np_radians,
    np_remainder, broadcast, elementwise, remainder_elt, ma_unary, ma_binary,
    ufunc1, ma_eq, ma_lt, truth, num, masked, squeeze.
  cbn [shape shape_eqb has_shape negb bind data mask orb].
  replace (shape_eqb [] []) with true by reflexivity. cbn [negb].
  destruct md, ms; cbn [bind data mask orb];
    repeat match goal with
      | |- context [if ?b then _ else _] =>
          lazymatch b with
          | context [if _ then _ else _] => fail
          | _ => let E := fresh "E" in destruct b eqn:E; cbn [bind data mask orb]
          end
      end;
    eexists; eexists; (split; [reflexivity|]); cbn [data mask];
    (split; [reflexivity|]); intros Hm; try discriminate;
    split; auto.
Qed.


Lemma vec2comp_ok_shapes (wdir wspd : marray F) (r : marray F * marray F) :
  vec2comp TOL wdir wspd missing = Ok r -> shape wdir = shape wspd.
Proof.
  unfold vec2comp, shape_eqb.
  destruct (list_eq_dec Nat.eq_dec (shape wdir) (shape wspd)) as [e|_];
    [intros _; exact e | discriminate].
Qed.

Lemma in_map2 {A B C : Type} (f : A -> B -> C) (xs : list A) (ys : list B)
  (z : C) :
  In z (map2 f xs ys) -> exists x y, z = f x y.
Proof.
  rewrite map2_combine, in_map_iff. intros ([x y] & <- & _). now exists x, y.
Qed.

Lemma snap_elt_cases (e : melt F) :
  data (snap_elt TOL e) = lit 0
  \/ (fabs (data (snap_elt TOL e)) <? TOL) = false.
Proof.
  unfold snap_elt. destruct (fabs (data e) <? TOL) eqn:E; [now left | now right].
Qed.

End Outputs.

(** X1.  [vec2comp] on two operands of the same shape (two 0-d arrays, or
    two fields of one length) raises nothing; [u] and [v] have the shape of
    the operands, and they are masked at the same positions. *)
Theorem vec2comp_shape_and_masks :
  forall (F : Type) (N : Float64 F) (TOL missing : F) (wdir wspd : marray F),
    shape wdir = shape wspd ->
    exists u v,
      vec2comp TOL wdir wspd missing = Ok (u, v)
      /\ shape u = shape wdir /\ shape v = shape wdir
      /\ getmask u = getmask v.
Proof.
  intros F N TOL missing [d|ds] [s|ss] Hshape; try discriminate.
  - destruct (vec2comp_scalars TOL missing d s) as (u & v & H & Hm & _).
    exists (Scalar u), (Scalar v). rewrite H. cbn. now rewrite Hm.
  - apply shape_field_length in Hshape.
    rewrite (vec2comp_fields TOL missing ds ss Hshape).
    eexists; eexists; split; [reflexivity|].
    cbn [shape getmask]. rewrite !length_map2 by assumption.
    repeat split. f_equal. rewrite !map2_combine, !map_map.
    apply map_ext. intros [d s]. apply snap_raw_mask.
Qed.

Lemma vec2comp_shape_and_masks_witness :
  let N := IEEE.instance IEEE.Ref.libm in
  exists u v,
    vec2comp 1e-10%float (array [0%float; (-9999)%float])
      (array [5%float; 5%float]) (-9999)%float = Ok (u, v)
    /\ shape u = [2%nat] /\ shape v = [2%nat]
    /\ getmask u = getmask v.
Proof.
  intros N.
  apply (@vec2comp_shape_and_masks float N 1e-10%float (-9999)%float
           (array [0%float; (-9999)%float]) (array [5%float; 5%float])).
  reflexivity.
Defined.

(** X2.  No number returned by [vec2comp] is below the tolerance: an
    element of [u] or of [v] that is not masked is 0, or its absolute value
    is not below [TOL]. *)
Theorem vec2comp_never_below_tolerance :
  forall (F : Type) (N : Float64 F) (TOL missing : F)
         (wdir wspd u v : marray F) (e : melt F),
    vec2comp TOL wdir wspd missing = Ok (u, v) ->
    In e (elements u) \/ In e (elements v) ->
    mask e = false ->
    data e = lit 0 \/ fltb (fabs (data e)) TOL = false.
Proof.
  intros F N TOL missing wdir wspd u v e H He Hm.
  pose proof (vec2comp_ok_shapes _ _ _ _ H) as Hshape.
  destruct wdir as [d|ds], wspd as [s|ss]; try discriminate.
  - destruct (vec2comp_scalars TOL missing d s) as (u' & v' & H' & Hm' & Hs).
    rewrite H' in H. injection H as <- <-. cbn in He.
    destruct He as [[<-|[]]|[<-|[]]].
    + now apply Hs.
    + apply Hs. congruence.
  - apply shape_field_length in Hshape.
    rewrite (vec2comp_fields TOL missing ds ss Hshape) in H.
    injection H as <- <-. cbn [elements] in He.
    destruct He as [He|He]; apply in_map2 in He; destruct He as (x & y & ->);
      match goal with
      | |- context [snap_elt TOL ?r] =>
          destruct (snap_elt_cases TOL r) as [E|E];
          [left; exact E | now right]
      end.
Qed.

Lemma vec2comp_never_below_tolerance_witness :
  let N := IEEE.instance IEEE.Ref.libm in
  0%float = lit 0 \/ fltb (fabs 0%float) 1e-10%float = false.
Proof.
  intros N.
  apply (@vec2comp_never_below_tolerance float N 1e-10%float (-9999)%float
           (num 180%float) (num 1%float) (num 0%float) (num 1%float)
           (Melt 0%float false)).
  - vm_compute. reflexivity.
  - left. left. reflexivity.
  - reflexivity.
Defined.

Section MagOutputs.
Context {F : Type} {N : Float64 F}.
Local Open Scope f64_scope.
Variable missing : F.

Lemma mag_elt_missing (u v : melt F) :
  is_missing missing u || is_missing missing v = true ->
  mask (mag_elt missing u v) = true.
Proof.
  intros H. unfold mag_elt, sqrt_elt, ma_binary, power2_elt, mark.
  cbn [data mask].
  destruct (is_missing missing u), (is_missing missing v); try discriminate;
    cbn [orb]; rewrite ?orb_true_r; reflexivity.
Qed.

Lemma sqrt_elt_finite (x : melt F) :
  mask (sqrt_elt x) = false -> isfinite (data (sqrt_elt x)) = true.
Proof.
  unfold sqrt_elt. cbn [data mask].
  destruct (isfinite (fsqrt (data x))) eqn:Ef; cbn [negb orb]; [|discriminate].
  destruct (data x <? lit 0); cbn [orb]; [discriminate|].
  destruct (mask x); [discriminate|]. intros _. exact Ef.
Qed.

End MagOutputs.

(** X3.  [mag] on two fields of one length raises nothing and returns a
    field of that length, masked at every position where an operand is
    masked or equal to the sentinel. *)
Theorem mag_field_masks_missing :
  forall (F : Type) (N : Float64 F) (missing : F) (us vs : list (melt F)),
    length us = length vs ->
    exists ws,
      mag (Field us) (Field vs) missing = Ok (Field ws)
      /\ length ws = length us
      /\ forall (i : nat) (u v : melt F),
          nth_error us i = Some u -> nth_error vs i = Some v ->
          is_missing missing u || is_missing missing v = true ->
          exists w, nth_error ws i = Some w /\ mask w = true.
Proof.
  intros F N missing us vs Hlen.
  rewrite (mag_fields missing us vs Hlen).
  eexists; split; [reflexivity|]. split; [now apply length_map2|].
  intros i u v Hu Hv Hm.
  rewrite (nth_error_map2 _ us vs i Hu Hv).
  eexists; split; [reflexivity|]. now apply mag_elt_missing.
Qed.

Lemma mag_field_masks_missing_witness :
  let N := IEEE.instance IEEE.Ref.libm in
  exists ws,
    mag (array [3%float; (-9999)%float]) (array [4%float; 0%float]) (-9999)%float
    = Ok (Field ws)
    /\ length ws = 2%nat
    /\ forall (i : nat) (u v : melt float),
        nth_error [Melt 3%float false; Melt (-9999)%float false] i = Some u ->
        nth_error [Melt 4%float false; Melt 0%float false] i = Some v ->
        is_missing (-9999)%float u || is_missing (-9999)%float v = true ->
        exists w, nth_error ws i = Some w /\ mask w = true.
Proof.
  intros N.
  apply (@mag_field_masks_missing float N (-9999)%float
           [Melt 3%float false; Melt (-9999)%float false]
           [Melt 4%float false; Melt 0%float false]).
  reflexivity.
Defined.

Section MagResult.
Context {F : Type} {N : Float64 F}.
Local Open Scope f64_scope.
Variable missing : F.

Lemma ma_sqrt_elements (s : marray F) (e : melt F) :
  In e (elements (ma_sqrt s)) -> mask e = false -> exists x, e = sqrt_elt x.
Proof.
  destruct s as [x|xs]; cbn [ma_sqrt elementwise elements].
  - intros [<-|[]] Hm. rewrite (squeeze_unmasked _ Hm). now exists x.
  - rewrite in_map_iff. intros (x & <- & _) _. now exists x.
Qed.

(** Whatever the shapes, a numeric element of the result of [mag] comes out
    of [ma.sqrt]. *)
Lemma mag_result_sqrt (u v w : marray F) (e : melt F) :
  mag u v missing = Ok w ->
  In e (elements w) -> mask e = false -> exists x, e = sqrt_elt x.
Proof.
  unfold mag. destruct (has_shape u).
  - destruct (setitem_masked u _) as [u'|]; [|discriminate]. cbn [bind].
    destruct (setitem_masked v _) as [v'|]; [|discriminate]. cbn [bind].
    destruct (ma_add _ _) as [s|]; [|discriminate]. cbn [bind].
    intros [= <-]. apply ma_sqrt_elements.
  - destruct (truth (ma_eq u missing)) as [b1|]; [|discriminate]. cbn [bind].
    destruct (if b1 then Ok true else truth (ma_eq v missing)) as [b|];
      [|discriminate].
    cbn [bind]. destruct b.
    + intros [= <-] [<-|[]]. discriminate.
    + destruct (ma_add _ _) as [s|]; [|discriminate]. cbn [bind].
      intros [= <-]. apply ma_sqrt_elements.
Qed.

End MagResult.

(** X4.  [mag] never returns a number that is not finite: whatever the
    operands, an element of the result that is not masked is finite
    ([ma.sqrt] masks infinities and NaN). *)
Theorem mag_numbers_are_finite :
  forall (F : Type) (N : Float64 F) (missing : F) (u v w : marray F)
         (e : melt F),
    mag u v missing = Ok w ->
    In e (elements w) ->
    mask e = false ->
    isfinite (data e) = true.
Proof.
  intros F N missing u v w e H He Hm.
  destruct (@mag_result_sqrt F N missing u v w e H He Hm) as [x ->].
  now apply sqrt_elt_finite.
Qed.

Lemma mag_numbers_are_finite_witness :
  let N := IEEE.instance IEEE.Ref.libm in
  isfinite 5%float = true.
Proof.
  intros N.
  apply (@mag_numbers_are_finite float N (-9999)%float (num 3%float)
           (num 4%float) (num 5%float) (Melt 5%float false)).
  - vm_compute. reflexivity.
  - left. reflexivity.
  - reflexivity.
Defined.

(** X18.  Masking in the array branch of [comp2vec]: on two fields of one
    length, the direction is masked exactly at the positions where [u] or
    [v] is the sentinel or is masked already, whatever the data under the
    mask, and the speed is masked at those positions too. *)
Theorem comp2vec_field_masks_missing :
  forall (F : Type) (N : Float64 F) (TOL missing : F) (us vs : list (melt F)),
    length us = length vs ->
    exists wdir wspd,
      comp2vec TOL (Field us) (Field vs) missing = Ok (Field wdir, Field wspd)
      /\ forall (i : nat) (u v : melt F),
          nth_error us i = Some u ->
          nth_error vs i = Some v ->
          exists ed es,
            nth_error wdir i = Some ed /\ nth_error wspd i = Some es
            /\ mask ed = is_missing missing u || is_missing missing v
            /\ (is_missing missing u || is_missing missing v = true ->
                mask es = true).
Proof.
  intros F N TOL missing us vs Hlen.
  rewrite (comp2vec_fields TOL missing us vs Hlen).
  eexists; eexists; split; [reflexivity|].
  intros i u v Hu Hv.
  rewrite !(nth_error_map2 _ us vs i Hu Hv).
  eexists; eexists; split; [reflexivity|]. split; [reflexivity|]. split.
  - unfold comp2vec_dir. now rewrite snap_elt_mask.
  - now apply mag_elt_missing.
Qed.

Lemma comp2vec_field_masks_missing_witness :
  let N := IEEE.instance IEEE.Ref.libm in
  exists wdir wspd,
    comp2vec 1e-10%float (Field [Melt 0%float false])
      (Field [Melt (-9999)%float false]) (-9999)%float
    = Ok (Field wdir, Field wspd)
    /\ forall (i : nat) (u v : melt float),
        nth_error [Melt 0%float false] i = Some u ->
        nth_error [Melt (-9999)%float false] i = Some v ->
        exists ed es,
          nth_error wdir i = Some ed /\ nth_error wspd i = Some es
          /\ mask ed = is_missing (-9999)%float u || is_missing (-9999)%float v
          /\ (is_missing (-9999)%float u || is_missing (-9999)%float v = true ->
              mask es = true).
Proof.
  intros N.
  apply (@comp2vec_field_masks_missing float N 1e-10%float (-9999)%float
           [Melt 0%float false] [Melt (-9999)%float false]).
  reflexivity.
Defined.

Section SpeedOfComp2vec.
Context {F : Type} {N : Float64 F}.
Local Open Scope f64_scope.
Variable TOL : F.
Variable missing : F.

Lemma comp2vec_scalars (u v : melt F) :
  exists wdir wspd,
    comp2vec TOL (Scalar u) (Scalar v) missing = Ok (Scalar wdir, Scalar wspd)
    /\ mag (Scalar u) (Scalar v) missing = Ok (Scalar wspd).
Proof.
  destruct u as [u mu], v as [v mv].
  unfold comp2vec, mag, np_arctan2, np_negative, np_degrees, np_fabs, ma_add,
    ma_power2, ma_sqrt, broadcast, elementwise, ma_eq, ma_lt, truth, iadd,
    masked, num.
  cbn [has_shape shape bind data mask].
  destruct mu, mv; cbn [bind data mask];
    repeat match goal with
      | |- context [if ?b then _ else _] =>
          lazymatch b with
          | context [if _ then _ else _] => fail
          | _ => let E := fresh "E" in
                 destruct b eqn:E; cbn [bind data mask]; rewrite ?E
          end
      end;
    eexists; eexists; split; reflexivity.
Qed.

End SpeedOfComp2vec.




Section MixedShapes.
Context {F : Type} {N : Float64 F}.
Local Open Scope f64_scope.
Variable TOL : F.
Variable missing : F.

Lemma broadcast_scalar_map {A : Type} (f : melt F -> melt F -> melt F)
  (x : melt F) (h : A -> melt F) (ps : list A) :
  broadcast f (Scalar x) (Field (map h ps))
  = Ok (Field (map (fun p => f x (h p)) ps)).
Proof. simpl. now rewrite map_map. Qed.

Lemma truth_long_array {A : Type} (b : A -> bool) (ps : list A) :
  (2 <= length ps)%nat -> truth (IdxArray (map b ps)) = Raise ValueError.
Proof.
  destruct ps as [|p1 [|p2 ps]]; simpl; intros H; try lia. reflexivity.
Qed.

Lemma mag_number_map {A : Type} (g : A -> melt F) (ps : list A) (u : melt F) :
  (2 <= length ps)%nat ->
  mag (Scalar u) (Field (map g ps)) missing
  = if negb (mask u) && (data u =? missing) then Ok masked
    else Raise ValueError.
Proof.
  intros Hlen. unfold mag. cbn [has_shape shape ma_eq].
  rewrite map_map, (truth_long_array _ ps Hlen).
  destruct (mask u); [reflexivity|]. cbn [truth bind negb andb].
  now destruct (data u =? missing).
Qed.

Lemma comp2vec_number_map {A : Type} (g : A -> melt F) (ps : list A) (u : F) :
  (2 <= length ps)%nat ->
  comp2vec TOL (num u) (Field (map g ps)) missing = Raise ValueError.
Proof.
  intros Hlen. unfold comp2vec. numpy_unfold.
  repeat (autorewrite with numpy; rewrite ?broadcast_scalar_map; cbv beta).
  cbn [bind].
  match goal with
  | |- context [mag (Scalar ?e) (Field (map ?h ps)) missing] =>
      rewrite (@mag_number_map A h ps e Hlen)
  end.
  destruct (u =? missing) eqn:Eu; cbn [data mask negb andb]; rewrite ?Eu;
    reflexivity.
Qed.

End MixedShapes.



(* ================================================================== *)
(** * Further properties: the scalar and the array branch *)

Section ScalarAndField.
Context {F : Type} {N : Float64 F}.
Local Open Scope f64_scope.
Variable TOL : F.
Variable missing : F.

(** [mag] on two numbers other than the sentinel, against the element of
    the array branch: the same mask, and the same number where there is
    one. *)
Lemma squeeze_mask (e : melt F) : mask (squeeze e) = mask e.
Proof. unfold squeeze. now destruct (mask e) eqn:E. Qed.

Lemma mag_numbers_elt (u v : F) :
  (u =? missing) = false -> (v =? missing) = false ->
  exists r,
    mag (num u) (num v) missing = Ok (Scalar r)
    /\ mask (mag_elt missing (Melt u false) (Melt v false)) = mask r
    /\ (mask r = false -> mag_elt missing (Melt u false) (Melt v false) = r).
Proof.
  intros Hu Hv.
  exists (squeeze (mag_elt missing (Melt u false) (Melt v false))).
  split; [|split; [now rewrite squeeze_mask | intros Hm; symmetry;
                                               now apply squeeze_unmasked]].
  unfold mag, ma_add, ma_power2, ma_sqrt, broadcast, elementwise, ma_eq, truth,
    num, mag_elt, mark, is_missing.
  cbn [has_shape shape bind data mask orb]. rewrite Hu. cbn [bind].
  rewrite Hv. cbn [bind]. do 2 f_equal.
  unfold power2_elt. cbn [data mask orb].
  destruct (isfinite (u * u)), (isfinite (v * v)); cbn [negb];
    unfold squeeze, ma_binary, sqrt_elt; cbn [data mask orb];
    rewrite ?orb_true_r; cbn [data mask orb]; reflexivity.
Qed.

Lemma comp2vec_dir_numbers (u v : F) :
  (u =? missing) = false -> (v =? missing) = false ->
  comp2vec_dir TOL missing (Melt u false) (Melt v false)
  = Melt (snap TOL (shift360 (degrees (farctan2 (- u) (- v))))) false.
Proof.
  intros Hu Hv. unfold comp2vec_dir, snap_elt, snap, shift360, is_missing.
  cbn [data mask orb]. rewrite Hu, Hv. cbn [orb].
  destruct (degrees (farctan2 (- u) (- v)) <? lit 0); cbn [data];
    match goal with |- context [fabs ?w <? TOL] => destruct (fabs w <? TOL) end;
    reflexivity.
Qed.

Lemma vec2comp_scalar_sentinel (d s : F) :
  (d =? missing) = true \/ (s =? missing) = true ->
  vec2comp TOL (num d) (num s) missing = Ok (masked, masked).
Proof.
  intros H. unfold vec2comp, num, ma_eq, truth.
  cbn [shape has_shape bind data mask].
  replace (shape_eqb [] []) with true by reflexivity. cbn [negb].
  destruct (d =? missing) eqn:Ed; cbn [bind];
    [|destruct H as [H|H]; [discriminate|]; rewrite H; cbn [bind]];
    unfold _vec2comp, ma_multiply, ma_sin, ma_cos, ma_fabs, np_radians,
      np_remainder, broadcast, elementwise, remainder_elt, ma_unary, ma_binary,
      ufunc1, ma_lt, truth, num, masked, squeeze;
    cbn [bind data mask orb];
    destruct (safe_divide_domain (lit 0) (lit 360)); reflexivity.
Qed.

End ScalarAndField.

(** X14.  Where nothing is missing the two branches of [comp2vec] agree: at
    a position of two fields of one length holding the numbers [u] and [v],
    neither the sentinel, the direction is the number the scalar call
    [comp2vec(u, v)] returns, and the speed is masked exactly when the
    scalar speed is, and is the same number otherwise. *)
Theorem comp2vec_field_agrees_with_scalar :
  forall (F : Type) (N : Float64 F) (TOL missing : F)
         (us vs : list (melt F)) (i : nat) (u v : F),
    length us = length vs ->
    nth_error us i = Some (Melt u false) ->
    nth_error vs i = Some (Melt v false) ->
    feqb u missing = false -> feqb v missing = false ->
    exists (w : F) (r r' : melt F) (wdir wspd : list (melt F)),
      comp2vec TOL (num u) (num v) missing = Ok (num w, Scalar r)
      /\ comp2vec TOL (Field us) (Field vs) missing = Ok (Field wdir, Field wspd)
      /\ nth_error wdir i = Some (Melt w false)
      /\ nth_error wspd i = Some r'
      /\ mask r' = mask r /\ (mask r = false -> r' = r).
Proof.
  intros F N TOL missing us vs i u v Hlen Hui Hvi Hu Hv.
  destruct (mag_numbers_elt missing u v Hu Hv) as (r & Hmag & Hmask & Hval).
  rewrite (comp2vec_numbers TOL missing u v Hu Hv), Hmag.
  rewrite (comp2vec_fields TOL missing us vs Hlen). cbn [bind].
  eexists; exists r; eexists; eexists; eexists.
  split; [reflexivity|]. split; [reflexivity|].
  rewrite !(nth_error_map2 _ us vs i Hui Hvi).
  rewrite (comp2vec_dir_numbers TOL missing u v Hu Hv).
  split; [reflexivity|]. split; [reflexivity|]. split; assumption.
Qed.

Lemma comp2vec_field_agrees_with_scalar_witness :
  let N := IEEE.instance IEEE.Ref.libm in
  exists (w : float) (r r' : melt float) (wdir wspd : list (melt float)),
    comp2vec 1e-10%float (num 0%float) (num (-1)%float) (-9999)%float
    = Ok (num w, Scalar r)
    /\ comp2vec 1e-10%float (Field [Melt 0%float false])
         (Field [Melt (-1)%float false]) (-9999)%float
       = Ok (Field wdir, Field wspd)
    /\ nth_error wdir 0 = Some (Melt w false)
    /\ nth_error wspd 0 = Some r'
    /\ mask r' = mask r /\ (mask r = false -> r' = r).
Proof.
  intros N.
  apply (@comp2vec_field_agrees_with_scalar float N 1e-10%float (-9999)%float
           [Melt 0%float false] [Melt (-1)%float false] 0 0%float (-1)%float);
    vm_compute; reflexivity.
Defined.

(** X15.  The scalar branch of [vec2comp] with the sentinel: when the
    direction or the speed is a number equal to [missing], the result is
    [(ma.masked, ma.masked)], whatever the other operand, the tolerance and
    the arithmetic. *)
Theorem vec2comp_scalar_missing :
  forall (F : Type) (N : Float64 F) (TOL missing d s : F),
    feqb d missing = true \/ feqb s missing = true ->
    vec2comp TOL (num d) (num s) missing = Ok (masked, masked).
Proof.
  intros F N TOL missing d s H. now apply vec2comp_scalar_sentinel.
Qed.

Lemma vec2comp_scalar_missing_witness :
  let N := IEEE.instance IEEE.Ref.libm in
  vec2comp 1e-10%float (num 270%float) (num (-9999)%float) (-9999)%float
  = Ok (masked, masked).
Proof.
  intros N. apply vec2comp_scalar_missing. right. vm_compute. reflexivity.
Defined.

Section UnequalFields.
Context {F : Type} {N : Float64 F}.
Local Open Scope f64_scope.
Variable TOL : F.
Variable missing : F.

(** [a[a == missing] = ma.masked] on a field keeps its length. *)
Lemma mark_field (es : list (melt F)) :
  exists es',
    setitem_masked (Field es) (ma_eq (Field es) missing) = Ok (Field es')
    /\ length es' = length es.
Proof.
  unfold setitem_masked, assign, ma_eq. rewrite length_map, Nat.eqb_refl.
  eexists; split; [reflexivity|]. apply length_map2. now rewrite length_map.
Qed.

(** A boolean index of another length is refused. *)
Lemma assign_length_mismatch (upd : melt F -> melt F) (es : list (melt F))
  (bs : list bool) :
  length es <> length bs ->
  assign upd (Field es) (IdxArray bs) = Raise IndexError.
Proof.
  intros H. unfold assign.
  destruct (Nat.eqb_spec (length es) (length bs)); [contradiction | reflexivity].
Qed.

Lemma assign_length_match (upd : melt F -> melt F) (es : list (melt F))
  (bs : list bool) :
  length es = length bs ->
  exists es', assign upd (Field es) (IdxArray bs) = Ok (Field es')
              /\ length es' = length es.
Proof.
  intros H. unfold assign. rewrite H, Nat.eqb_refl.
  eexists; split; [reflexivity|]. rewrite <- H. now apply length_map2.
Qed.

Lemma comp2vec_unequal_fields (us vs : list (melt F)) :
  length us <> length vs ->
  comp2vec TOL (Field us) (Field vs) missing
  = Raise (if Nat.eqb (length us) 1 || Nat.eqb (length vs) 1
           then IndexError else ValueError).
Proof.
  intros Hne.
  destruct (mark_field us) as (us' & Hus & Lus).
  destruct (mark_field vs) as (vs' & Hvs & Lvs).
  unfold comp2vec, np_arctan2, np_negative, np_degrees.
  cbn [elementwise broadcast]. rewrite !length_map.
  destruct (Nat.eqb_spec (length us) (length vs)) as [|_]; [contradiction|].
  destruct us as [|u [|u2 us]].
  - (* u is empty *)
    destruct vs as [|v [|v2 vs]]; [now destruct Hne | | reflexivity].
    cbn [map bind elementwise has_shape shape length Nat.eqb orb].
    rewrite Hus. cbn [bind]. rewrite Hvs. cbn [bind].
    destruct us' as [|? ?]; [|discriminate].
    cbn [setitem_masked getmask map assign length Nat.eqb bind map2].
    destruct vs' as [|? [|? ?]]; try discriminate. reflexivity.
  - (* u has one element *)
    cbn [map length Nat.eqb orb bind elementwise has_shape shape].
    rewrite Hus. cbn [bind]. rewrite Hvs. cbn [bind].
    unfold setitem_masked at 1. cbn [getmask].
    rewrite assign_length_mismatch; [reflexivity|].
    rewrite !length_map, Lus. cbn [length] in *. congruence.
  - (* u has two elements or more *)
    destruct vs as [|v [|v2 vs]]; [reflexivity | | reflexivity].
    cbn [map length Nat.eqb orb bind elementwise has_shape shape].
    rewrite Hus. cbn [bind]. rewrite Hvs. cbn [bind].
    unfold setitem_masked at 1. cbn [getmask].
    match goal with
    | |- context [assign ?upd (Field ?es) (IdxArray ?bs)] =>
        destruct (@assign_length_match upd es bs) as (w & -> & Lw)
    end.
    { cbn [length map]. rewrite !length_map, Lus. reflexivity. }
    cbn [bind]. unfold setitem_masked at 1. cbn [getmask].
    rewrite assign_length_mismatch; [reflexivity|].
    rewrite Lw, !length_map, Lvs. cbn [length map]. rewrite !length_map. lia.
Qed.

End UnequalFields.

(** X17.  Two fields of different lengths never get through [comp2vec],
    but not by an assertion: the call raises [ValueError] (the broadcast of
    [np.arctan2]) when neither field has one element, and [IndexError] (the
    mask of one operand used as an index into the direction) when one of
    them has. *)
Theorem comp2vec_unequal_fields_raise :
  forall (F : Type) (N : Float64 F) (TOL missing : F) (us vs : list (melt F)),
    length us <> length vs ->
    comp2vec TOL (Field us) (Field vs) missing
    = Raise (if Nat.eqb (length us) 1 || Nat.eqb (length vs) 1
             then IndexError else ValueError).
Proof.
  intros F N TOL missing us vs H. now apply comp2vec_unequal_fields.
Qed.

Lemma comp2vec_unequal_fields_raise_witness :
  let N := IEEE.instance IEEE.Ref.libm in
  comp2vec 1e-10%float (array [0%float; 3%float]) (array [5%float]) (-9999)%float
  = Raise IndexError.
Proof.
  intros N.
  apply (@comp2vec_unequal_fields_raise float N 1e-10%float (-9999)%float
           [Melt 0%float false; Melt 3%float false] [Melt 5%float false]).
  simpl. lia.
Defined.

(* ================================================================== *)
(** * Further properties in binary64 *)

(** X16.  A calm wind in binary64: for the speed [0.] and a direction that
    is not the sentinel and is in the domain of [%], whose sine and cosine
    the C library returns as finite numbers, [vec2comp] returns exactly
    [(0., 0.)] for any positive tolerance, so the direction cannot be read
    back from the components. *)
Theorem vec2comp_calm :
  forall (L : IEEE.Libm) (TOL missing d : float),
    let N := IEEE.instance L in
    PrimFloat.ltb 0 TOL = true ->
    PrimFloat.eqb d missing = false ->
    PrimFloat.eqb 0 missing = false ->
    safe_divide_domain d 360%float = false ->
    let theta := radians (fmod d 360%float) in
    PrimFloat.is_finite (IEEE.sin L theta) = true ->
    PrimFloat.is_finite (IEEE.cos L theta) = true ->
    vec2comp TOL (num d) (num 0%float) missing = Ok (num 0%float, num 0%float).
Proof.
  intros L TOL missing d N Htol Hd H0 Hdom theta Hsin Hcos.
  assert (H360 : lit (F := float) 360 = 360%float) by float_literal.
  rewrite (@vec2comp_numbers float N TOL missing d 0%float Hd H0)
    by (rewrite H360; exact Hdom).
  rewrite H360. fold theta.
  unfold snap. cbn [fabs fmul fltb fsin fcos lit N IEEE.instance].
  change (IEEE.of_Q (-1)) with (-1)%float.
  change (IEEE.of_Q 0) with 0%float.
  rewrite (float_zero_component _ Hsin), (float_zero_component _ Hcos).
  now rewrite Htol.
Qed.

Lemma vec2comp_calm_witness :
  let N := IEEE.instance IEEE.Ref.libm in
  vec2comp 1e-10%float (num 90%float) (num 0%float) (-9999)%float
  = Ok (num 0%float, num 0%float).
Proof.
  intros N.
  apply (@vec2comp_calm IEEE.Ref.libm 1e-10%float (-9999)%float 90%float);
    vm_compute; reflexivity.
Defined.
